(** * Dynamite: the dynamic model-composition layer of [dynamite_cpp/Main.cpp]

    A shallow embedding of the [Dynamite] namespace (parameter blocks, models,
    batch utilities, layer constructors, sequence combinators and minibatch
    adaptation) together with the properties the specification states about
    it.

    The CNTK library itself ([CNTKLibrary.h]) is an external collaborator: its
    tensor operations are taken as the fields of the class [TensorEngine]
    and are never unfolded.  Exceptions ([LogicError]), failed [assert]s and
    undefined behaviour (reading [front()] of an empty vector, indexing out
    of range, dereferencing a null [shared_ptr]) are explicit outcomes of the
    monad [Eng].  The monad also threads the engine's supply of unique ids
    and a ghost trace, in which the closures of [Embedding], [RNNStep] and
    [Linear] record each of their invocations, so that statements can count
    calls. *)

From Stdlib Require Import ZArith NArith Lia.
From stdpp Require Import base option list gmap strings pretty.

Set Warnings "-register-all".
#[local] Open Scope string_scope.
#[local] Open Scope list_scope.

(** ** Plain data of the CNTK interface *)

(** [size_t] is a 64-bit unsigned integer. *)
Definition SIZE_MOD : N := 2 ^ 64.

(** Unsigned subtraction [a - b] on [size_t], wrapping around below zero. *)
Definition size_sub (a b : N) : N :=
  if (b <=? a)%N then (a - b)%N else (SIZE_MOD - (b - a) mod SIZE_MOD)%N.

(** The cast [(int)n] of a [size_t]: the low 32 bits read as two's
    complement. *)
Definition to_int (n : N) : Z :=
  let low := ((Z.of_N n) mod 2 ^ 32)%Z in
  if (low <? 2 ^ 31)%Z then low else (low - 2 ^ 32)%Z.

(** [int] addition, wrapping around. *)
Definition int_add (a b : Z) : Z :=
  let low := ((a + b) mod 2 ^ 32)%Z in
  if (low <? 2 ^ 31)%Z then low else (low - 2 ^ 32)%Z.

(** [NDShape]: the dimensions of a tensor. *)
Abbreviation NDShape := (list N) (only parsing).

Inductive Axis : Type :=
| StaticAxis (index : Z)      (* Axis(int) *)
| AllStaticAxes               (* Axis::AllStaticAxes() *)
| DefaultBatchAxis.           (* Axis::DefaultBatchAxis() *)

Inductive DataType : Type := Float | Double.

Inductive Initializer (F : Type) : Type :=
| GlorotUniformInitializer
| ConstantInitializer (value : F).
Arguments GlorotUniformInitializer {F}.
Arguments ConstantInitializer {F} value.

(** [CNTK::Parameter]: a named learnable tensor.  The record keeps what the
    constructor is given; [par_uid] tells apart two parameters built from the
    same arguments. *)
Record Param_ (Dev F : Type) : Type := MkParam {
  par_uid : nat;
  par_shape : NDShape;
  par_type : DataType;
  par_init : Initializer F;
  par_device : Dev;
  Name : string
}.
Arguments MkParam {Dev F}.
Arguments par_uid {Dev F}.
Arguments par_shape {Dev F}.
Arguments par_type {Dev F}.
Arguments par_init {Dev F}.
Arguments par_device {Dev F}.
Arguments Name {Dev F}.

(** ** The tensor-graph engine *)

(** The operations of the CNTK library the program calls.  Each one builds a
    node of the computation graph from its operands. *)
Class TensorEngine : Type := {
  Var : Type;                                    (* CNTK::Variable *)
  Var_default : Var;                             (* Variable() *)
  DeviceDescriptor : Type;
  f32 : Type;
  f32_zero : f32;                                (* 0.0f *)
  NDArrayView : Type;                            (* NDArrayViewPtr *)
  Value : Type;                                  (* ValuePtr *)
  InferredDimension : N;                         (* NDShape::InferredDimension *)
  (* variables *)
  Shape : Var -> NDShape;                        (* x.Shape().Dimensions() *)
  DynamicAxes : Var -> list Axis;
  Var_of_Parameter : Param_ DeviceDescriptor f32 -> Var;
  Constant_fill : NDShape -> f32 -> DeviceDescriptor -> Var;
  Constant_view : NDArrayView -> Var;
  InputVariable : NDShape -> bool -> DataType -> string -> list Axis -> Var;
  PlaceholderVariable : nat -> Var;
  (* graph operations *)
  Times : Var -> Var -> Var;
  Times_rank : Var -> Var -> N -> Var;           (* Times(a, b, outputRank) *)
  Plus : Var -> Var -> Var;
  Minus : Var -> Var -> Var;
  ReLU : Var -> Var;
  Tanh : Var -> Var;
  Exp : Var -> Var;
  ReduceSum : Var -> Axis -> Var;
  ReduceLogSum : Var -> Axis -> Var;
  Reshape : Var -> NDShape -> Var;
  Slice : Var -> list Axis -> list Z -> list Z -> Var;
  Splice : list Var -> Axis -> Var;
  PastValue : Var -> Var;
  ReplacePlaceholders : Var -> list (Var * Var) -> Var;
  CNTK_Sequence_Last : Var -> Var;               (* CNTK::Sequence::Last *)
  (* array views and packed minibatch values *)
  View_Shape : NDArrayView -> NDShape;           (* data->Shape().Dimensions() *)
  SliceView : NDArrayView -> list N -> list N -> bool -> NDArrayView;
  AsShape : NDArrayView -> NDShape -> NDArrayView;
  UnpackVariableValue : Value -> Var -> DeviceDescriptor -> list NDArrayView
}.

(** ** Outcomes and the execution monad *)

(** What ends a run early. *)
Inductive failure : Type :=
| LogicError (msg : string)     (* CNTK::LogicError throws *)
| AssertFailed                  (* a failed assert aborts the process *)
| Undefined                     (* undefined behaviour *)
| LengthError.                  (* std::length_error throws *)

Inductive outcome (A : Type) : Type :=
| Ok (a : A)
| Fail (e : failure).
Arguments Ok {A} a.
Arguments Fail {A} e.

Section Dynamite.

Context `{TensorEngine}.

Abbreviation Param := (Param_ DeviceDescriptor f32) (only parsing).

(** A ghost event: the body of the closure of layer [layer] was entered with
    arguments [args]. *)
Record event : Type := Enter { layer : string; args : list Var }.

(** The state threaded through a run: the engine's supply of unique ids and
    the ghost trace of closure invocations. *)
Record world : Type := World { next_uid : nat; trace : list event }.

Definition Eng (A : Type) : Type := world -> outcome A * world.

#[export] Instance Eng_ret : MRet Eng := fun A a w => (Ok a, w).

#[export] Instance Eng_bind : MBind Eng := fun A B f m w =>
  match m w with
  | (Ok a, w') => f a w'
  | (Fail e, w') => (Fail e, w')
  end.

Definition throw_LogicError {A : Type} (msg : string) : Eng A :=
  fun w => (Fail (LogicError msg), w).

Definition undefined_behaviour {A : Type} : Eng A :=
  fun w => (Fail Undefined, w).

(** [assert(cond)], as it stands in the translation unit ([NDEBUG] is not
    defined there): a false condition aborts. *)
Definition assert_ (cond : bool) : Eng unit :=
  fun w => if cond then (Ok tt, w) else (Fail AssertFailed, w).

(** The engine hands out a fresh identity (for a parameter or a
    placeholder). *)
Definition fresh_uid : Eng nat :=
  fun w => (Ok (next_uid w), World (S (next_uid w)) (trace w)).

(** Ghost: append the event "closure [name] entered on [xs]" to the trace.
    It changes no value. *)
Definition tick (name : string) (xs : list Var) : Eng unit :=
  fun w => (Ok tt, World (next_uid w) (trace w ++ [Enter name xs])).

(** [for (size_t t = 0; t < n; t++) body], on a loop state of type [S]:
    [for_from t count] runs the [count] iterations [t, t+1, ...]. *)
Fixpoint for_from {S : Type} (t : N) (count : nat)
    (body : N -> S -> Eng S) (s : S) : Eng S :=
  match count with
  | O => mret s
  | Datatypes.S count' => s' ← body t s; for_from (N.succ t) count' body s'
  end.

Definition for_loop {S : Type} (n : N) (body : N -> S -> Eng S) (s : S)
    : Eng S :=
  for_from 0%N (N.to_nat n) body s.

(** [v[i]] on a [std::vector]: unchecked, undefined out of range. *)
Definition vec_get {A : Type} (v : list A) (i : N) : Eng A :=
  match v !! N.to_nat i with
  | Some a => mret a
  | None => undefined_behaviour
  end.

(** [v[i] = a]. *)
Definition vec_set {A : Type} (v : list A) (i : N) (a : A) : Eng (list A) :=
  if (i <? N.of_nat (length v))%N then mret (<[N.to_nat i := a]> v)
  else undefined_behaviour.

(** [v.back()] and [v.front()]: undefined on an empty vector. *)
Definition vec_back {A : Type} (v : list A) : Eng A :=
  match last v with
  | Some a => mret a
  | None => undefined_behaviour
  end.

Definition vec_front {A : Type} (v : list A) : Eng A :=
  match v with
  | a :: _ => mret a
  | [] => undefined_behaviour
  end.

(** [v.reserve(n)] on a vector whose [max_size()] is [max_size]: throws
    [std::length_error] when [n] is larger, and changes no element
    otherwise.  Running out of memory is outside the model. *)
Definition vec_reserve (max_size n : N) : Eng unit :=
  fun w => if (max_size <? n)%N then (Fail LengthError, w) else (Ok tt, w).

(** ** ParameterBlock *)

(** [m_parentParameters] holds [shared_ptr]s, which may be null: [None]. *)
Inductive ParameterBlock : Type := MkParameterBlock {
  m_parameters : gmap string Param;
  m_parentParameters : gmap string (option ParameterBlock)
}.

(** [std::map::insert]: an existing key keeps its value. *)
Definition map_insert_new {V : Type} (k : string) (v : V) (m : gmap string V)
    : gmap string V :=
  match m !! k with
  | Some _ => m
  | None => <[k := v]> m
  end.

Definition wstring_empty (s : string) : bool :=
  match s with
  | EmptyString => true
  | String _ _ => false
  end.

(** The loop of the constructor of [ParameterBlock]. *)
Fixpoint insert_parameters (parameters : list Param) (m : gmap string Param)
    : Eng (gmap string Param) :=
  match parameters with
  | [] => mret m
  | p :: rest =>
      if wstring_empty (Name p) then throw_LogicError "parameters must be named"
      else insert_parameters rest (map_insert_new (Name p) p m)
  end.

Definition ParameterBlock_new (parameters : list Param)
    (parentParameters : gmap string (option ParameterBlock))
    : Eng ParameterBlock :=
  m ← insert_parameters parameters ∅;
  mret (MkParameterBlock m parentParameters).

(** [ParameterBlock::operator[]]. *)
Definition ParameterBlock_lookup (pb : ParameterBlock) (name : string)
    : Eng Param :=
  match m_parameters pb !! name with
  | None => throw_LogicError (String.append "no such parameter: " name)
  | Some p => mret p
  end.

(** [ParameterBlock::Nested]; the found pointer is dereferenced. *)
Definition ParameterBlock_Nested (pb : ParameterBlock) (name : string)
    : Eng ParameterBlock :=
  match m_parentParameters pb !! name with
  | None => throw_LogicError (String.append "no such captured model: " name)
  | Some None => undefined_behaviour
  | Some (Some nested) => mret nested
  end.

(** ** Models *)

(** [ModelT<Base>]: a callable of type [Base] with the [shared_ptr] to its
    parameter block, null ([None]) for a model made from a bare function. *)
Record ModelT (Base : Type) : Type := MkModelT {
  fn : Base;
  GetParameterBlock : option ParameterBlock
}.
Arguments MkModelT {Base}.
Arguments fn {Base}.
Arguments GetParameterBlock {Base}.

(** [ModelT(const Base& f)]. *)
Definition ModelT_of {Base : Type} (f : Base) : ModelT Base :=
  MkModelT f None.

(** [ModelT(parameters, nested, f)]. *)
Definition ModelT_nested {Base : Type} (parameters : list Param)
    (nested : gmap string (option ParameterBlock)) (f : Base)
    : Eng (ModelT Base) :=
  pb ← ParameterBlock_new parameters nested;
  mret (MkModelT f (Some pb)).

(** [ModelT(parameters, f)]. *)
Definition ModelT_new {Base : Type} (parameters : list Param) (f : Base)
    : Eng (ModelT Base) :=
  ModelT_nested parameters ∅ f.

(** [ModelT::Nested]: the model's own pointer is dereferenced first. *)
Definition ModelT_Nested {Base : Type} (m : ModelT Base) (name : string)
    : Eng ParameterBlock :=
  match GetParameterBlock m with
  | None => undefined_behaviour
  | Some pb => ParameterBlock_Nested pb name
  end.

Definition UnaryModel : Type := ModelT (Var -> Eng Var).
Definition BinaryModel : Type := ModelT (Var -> Var -> Eng Var).
Definition UnarySequenceModel : Type := ModelT (list Var -> Eng (list Var)).
Definition BinarySequenceModel : Type :=
  ModelT (list Var -> list Var -> Eng (list Var)).

(** ** Batch *)

(** The range-based loop [for (x : batch) res.push_back(f(x))]. *)
Fixpoint push_back_each (f : Var -> Eng Var) (batch : list Var)
    (res : list Var) : Eng (list Var) :=
  match batch with
  | [] => mret res
  | x :: rest => y ← f x; push_back_each f rest (res ++ [y])
  end.

(** [Batch::map]. *)
Definition Batch_map (f : UnaryModel) (batch : list Var) : Eng (list Var) :=
  push_back_each (fn f) batch [].

(** The index loop shared by the two pairing overloads of [Batch::Map]. *)
Definition pair_loop {A B : Type} (f : A -> A -> Eng B) (xBatch yBatch : list A)
    : Eng (list B) :=
  for_loop (N.of_nat (length xBatch))
    (fun i res =>
       x ← vec_get xBatch i;
       y ← vec_get yBatch i;
       r ← f x y;
       mret (res ++ [r]))
    [].

(** [Batch::Map(BinaryModel)]. *)
Definition Batch_Map_binary (f : BinaryModel)
    : list Var -> list Var -> Eng (list Var) :=
  fun xBatch yBatch =>
    _ ← assert_ (N.of_nat (length yBatch) =? N.of_nat (length xBatch))%N;
    pair_loop (fn f) xBatch yBatch.

(** [Batch::Map(BinarySequenceModel)]. *)
Definition Batch_Map_binary_sequence (f : BinarySequenceModel)
    : list (list Var) -> list (list Var) -> Eng (list (list Var)) :=
  fun xBatch yBatch =>
    _ ← assert_ (N.of_nat (length yBatch) =? N.of_nat (length xBatch))%N;
    pair_loop (fn f) xBatch yBatch.

(** [Batch::sum(const vector<Variable>&)]. *)
Definition Batch_sum (batch : list Var) : Eng Var :=
  front ← vec_front batch;
  let shape := Shape front in
  let axis := to_int (N.of_nat (length shape)) in
  mret (Reshape (ReduceSum (Splice batch (StaticAxis axis)) (StaticAxis axis))
          shape).

(** The two nested [push_back] loops of the second overload. *)
Definition allSummands (batch : list (list Var)) : list Var :=
  foldl (fun acc batchItem => foldl (fun acc' seqItem => acc' ++ [seqItem])
                                acc batchItem)
    [] batch.

(** [Batch::sum(const vector<vector<Variable>>&)]. *)
Definition Batch_sum_nested (batch : list (list Var)) : Eng Var :=
  Batch_sum (allSummands batch).

(** ** UnaryBroadcastingModel *)

(** A [UnaryModel] with two call operators: on one item
    ([Broadcast_item]) and on a vector of items ([Broadcast_batch]). *)
Definition UnaryBroadcastingModel : Type := UnaryModel.

Definition Broadcast_item (m : UnaryBroadcastingModel) (x : Var) : Eng Var :=
  fn m x.

Definition Broadcast_batch (m : UnaryBroadcastingModel) (x : list Var)
    : Eng (list Var) :=
  Batch_map m x.

(** ** Layer constructors *)

(** [Parameter(shape, dataType, initializer, device, name)]. *)
Definition Parameter_new (shape : NDShape) (ty : DataType)
    (init : Initializer f32) (device : DeviceDescriptor) (name : string)
    : Eng Param :=
  uid ← fresh_uid;
  mret (MkParam uid shape ty init device name).

(** [Parameter(shape, 0.0f, device, name)]. *)
Definition Parameter_const (shape : NDShape) (value : f32)
    (device : DeviceDescriptor) (name : string) : Eng Param :=
  Parameter_new shape Float (ConstantInitializer value) device name.

(** [Embedding]: the closure computes [Times(E, x)]. *)
Definition Embedding (embeddingDim : N) (device : DeviceDescriptor)
    : Eng UnaryBroadcastingModel :=
  E ← Parameter_new [embeddingDim; InferredDimension] Float
        GlorotUniformInitializer device "E";
  ModelT_new [E] (fun x =>
    _ ← tick "Embedding" [x];
    mret (Times (Var_of_Parameter E) x)).

(** [RNNStep]: the closure computes
    [ReLU(Times(W, input) + Times(R, prevOutput) + b)]. *)
Definition RNNStep (outputDim : N) (device : DeviceDescriptor)
    : Eng BinaryModel :=
  W ← Parameter_new [outputDim; InferredDimension] Float
        GlorotUniformInitializer device "W";
  R ← Parameter_new [outputDim; outputDim] Float
        GlorotUniformInitializer device "R";
  b ← Parameter_const [outputDim] f32_zero device "b";
  ModelT_new [W; R; b] (fun prevOutput input =>
    _ ← tick "RNNStep" [prevOutput; input];
    mret (ReLU (Plus (Plus (Times (Var_of_Parameter W) input)
                           (Times (Var_of_Parameter R) prevOutput))
                     (Var_of_Parameter b)))).

(** [Linear]: the closure computes [Times(W, x) + b]. *)
Definition Linear (outputDim : N) (device : DeviceDescriptor)
    : Eng UnaryBroadcastingModel :=
  W ← Parameter_new [outputDim; InferredDimension] Float
        GlorotUniformInitializer device "W";
  b ← Parameter_const [outputDim] f32_zero device "b";
  ModelT_new [W; b] (fun x =>
    _ ← tick "Linear" [x];
    mret (Plus (Times (Var_of_Parameter W) x) (Var_of_Parameter b))).

(** ** Sequence *)

(** [Sequence::Last]. *)
Definition Sequence_Last (x : Var) : Eng Var := mret (CNTK_Sequence_Last x).

(** [Sequence::Recurrence]: the step is applied once, to the delayed
    placeholder, and the placeholder is then bound to the step's own
    output.  [ReplacePlaceholders] updates the graph behind [rec] in place;
    the value returned here is [rec] as it stands after the update. *)
Definition Sequence_Recurrence (stepFunction : BinaryModel) : UnaryModel :=
  ModelT_of (fun x =>
    uid ← fresh_uid;
    let dh := PlaceholderVariable uid in
    rec ← fn stepFunction (PastValue dh) x;
    mret (ReplacePlaceholders rec [(dh, rec)])).

(** [Sequence::Fold]. *)
Definition Sequence_Fold (stepFunction : BinaryModel) : Eng UnaryModel :=
  let captured : gmap string (option ParameterBlock) :=
    <["step" := GetParameterBlock stepFunction]> ∅ in
  let recurrence := Sequence_Recurrence stepFunction in
  ModelT_nested [] captured (fun x =>
    r ← fn recurrence x;
    Sequence_Last r).

(** ** Slicing *)

(** [Index(Variable x, size_t i)]: slice the last axis at [i]
    ([Index_slice]), then drop it.  [pop_back] on an empty vector is
    undefined. *)
Definition Index_slice (x : Var) (i : N) : Var :=
  Slice x [StaticAxis (int_add (to_int (N.of_nat (length (Shape x)))) (-1))]
    [to_int i] [int_add (to_int i) 1].

Definition Index (x : Var) (i : N) : Eng Var :=
  let x1 := Index_slice x i in
  let dims := Shape x1 in
  match dims with
  | [] => undefined_behaviour
  | _ :: _ => mret (Reshape x1 (removelast dims))
  end.

(** [v.back() = a]. *)
Definition set_back {A : Type} (v : list A) (a : A) : list A :=
  removelast v ++ [a].

(** [Index(NDArrayViewPtr data, size_t i)]. *)
Definition Index_view (data : NDArrayView) (i : N) : Eng NDArrayView :=
  let dims := View_Shape data in
  let startOffset := replicate (length dims) 0%N in
  let extent := dims in
  so ← vec_back startOffset;
  ex ← vec_back extent;
  let data1 :=
    if negb (so =? i)%N || negb (ex =? 1)%N
    then SliceView data (set_back startOffset i) (set_back extent 1%N) true
    else data in
  let dims1 :=
    if negb (so =? i)%N || negb (ex =? 1)%N then View_Shape data1 else dims in
  match dims1 with
  | [] => undefined_behaviour
  | _ :: _ => mret (AsShape data1 (removelast dims1))
  end.

(** [v.resize(n)]. *)
Definition resize (v : list Var) (n : N) : list Var :=
  take (N.to_nat n) v ++ replicate (N.to_nat n - length v) Var_default.

(** ** Minibatch adaptation *)

(** The body of the inner loop of [FromCNTKMB]: sequence [s] of one stream
    becomes a constant, after its sample axis is cut when the stream has no
    sequence axis. *)
Definition FromCNTKMB_item (hasAxis : bool) (sequences : list NDArrayView)
    (s : N) (arg : list Var) : Eng (list Var) :=
  data ← vec_get sequences s;
  data' ← (if negb hasAxis
           then last_dim ← vec_back (View_Shape data);
                _ ← assert_ (last_dim =? 1)%N;
                Index_view data 0%N
           else mret data);
  vec_set arg s (Constant_view data').

(** The body of the outer loop of [FromCNTKMB], on the pair of [res] and
    [numSeq]. *)
Definition FromCNTKMB_body (inputs : list Value) (variables : list Var)
    (device : DeviceDescriptor) (i : N) (st : list (list Var) * N)
    : Eng (list (list Var) * N) :=
  let '(res, numSeq) := st in
  input ← vec_get inputs i;
  variable ← vec_get variables i;
  let sequences := UnpackVariableValue input variable device in
  let size := N.of_nat (length sequences) in
  numSeq' ← (if (numSeq =? 0)%N then mret size
             else if negb (numSeq =? size)%N
                  then throw_LogicError "inconsistent MB size"
                  else mret numSeq);
  let hasAxis := (1 <? N.of_nat (length (DynamicAxes variable)))%N in
  arg0 ← vec_get res i;
  arg ← for_loop numSeq' (FromCNTKMB_item hasAxis sequences)
          (resize arg0 numSeq');
  res' ← vec_set res i arg;
  mret (res', numSeq').

Definition FromCNTKMB (inputs : list Value) (variables : list Var)
    (device : DeviceDescriptor) : Eng (list (list Var)) :=
  let numArgs := N.of_nat (length inputs) in
  st ← for_loop numArgs (FromCNTKMB_body inputs variables device)
         (replicate (length inputs) [], 0%N);
  mret (fst st).

(** ** The unrolled sequence classifier *)

(** The closure [CreateModelFunctionUnrolled] returns, on the sub-models
    and the initial state it captures. *)
Definition CreateModelFunctionUnrolled_fn (embed : UnaryBroadcastingModel)
    (step : BinaryModel) (linear : UnaryBroadcastingModel) (zero : Var)
    : Var -> Eng Var :=
  fun x =>
    len ← vec_back (Shape x);
    state ← for_loop len
               (fun t state =>
                  xt ← Index x t;
                  xt' ← Broadcast_item embed xt;
                  fn step state xt')
               zero;
    Broadcast_item linear state.

Definition CreateModelFunctionUnrolled
    (numOutputClasses embeddingDim hiddenDim : N) (device : DeviceDescriptor)
    : Eng UnaryModel :=
  embed ← Embedding embeddingDim device;
  step ← RNNStep hiddenDim device;
  linear ← Linear numOutputClasses device;
  let zero := Constant_fill [hiddenDim] f32_zero device in
  ModelT_nested []
    (map_insert_new "linear" (GetParameterBlock linear)
       (map_insert_new "step" (GetParameterBlock step)
          (map_insert_new "embed" (GetParameterBlock embed) ∅)))
    (CreateModelFunctionUnrolled_fn embed step linear zero).

(** [ToVector], for a [vector<Variable>] whose [max_size()] is
    [max_size]: the result is reserved for [len] elements before the
    loop. *)
Definition ToVector (max_size : N) (x : Var) : Eng (list Var) :=
  len ← vec_back (Shape x);
  _ ← vec_reserve max_size len;
  for_loop len (fun t res => xt ← Index x t; mret (res ++ [xt])) [].

(** ** Recurrence over a vector of slices *)

(** One iteration of the loop of [Recurrence], on the vector [res]. *)
Definition Recurrence_body (step : BinaryModel) (initialState : Var)
    (goBackwards : bool) (seq : list Var) (t : N) (res : list Var)
    : Eng (list Var) :=
  let len := N.of_nat (length seq) in
  if negb goBackwards then
    prev ← (if (t =? 0)%N then mret initialState
            else vec_get res (size_sub t 1));
    x ← vec_get seq t;
    r ← fn step prev x;
    vec_set res t r
  else
    prev ← (if (t =? 0)%N then mret initialState
            else vec_get res (size_sub (size_sub len 1) (size_sub t 1)));
    x ← vec_get seq (size_sub (size_sub len 1) t);
    r ← fn step prev x;
    vec_set res (size_sub (size_sub len 1) t) r.

Definition Recurrence (step : BinaryModel) (initialState : Var)
    (goBackwards : bool) : UnarySequenceModel :=
  ModelT_of (fun seq =>
    let len := N.of_nat (length seq) in
    for_loop len (Recurrence_body step initialState goBackwards seq)
      (replicate (length seq) Var_default)).

(** [BiRecurrence]. *)
Definition BiRecurrence (stepFwd stepBwd : BinaryModel) (initialState : Var)
    : UnarySequenceModel :=
  let fwd := Recurrence stepFwd initialState false in
  let bwd := Recurrence stepBwd initialState true in
  let splice := Batch_Map_binary
                  (ModelT_of (fun a b => mret (Splice [a; b] (StaticAxis 0)))) in
  ModelT_of (fun seq =>
    rFwd ← fn fwd seq;
    rBwd ← fn bwd seq;
    splice rFwd rBwd).

(** ** Attention *)

Definition softmax (z : Var) : Var :=
  let Z := ReduceLogSum z AllStaticAxes in
  Exp (Minus z Z).

(** [AttentionModel]; its three parameters are unnamed. *)
Definition AttentionModel (attentionDim : N) (device : DeviceDescriptor)
    : Eng (list Var -> Var -> Eng Var) :=
  Wenc ← Parameter_new [attentionDim; InferredDimension] Float
           GlorotUniformInitializer device "";
  Wdec ← Parameter_new [attentionDim; InferredDimension] Float
           GlorotUniformInitializer device "";
  v ← Parameter_new [attentionDim] Float GlorotUniformInitializer device "";
  mret (fun hEncs hDec =>
    let hEncsTensor := Splice hEncs (StaticAxis 1) in
    let hEncsProj := Times_rank (Var_of_Parameter Wenc) hEncsTensor 1 in
    let hDecProj := Times (Var_of_Parameter Wdec) hDec in
    let u := Tanh (Plus hEncsProj hDecProj) in
    let u1 := Times_rank (Var_of_Parameter v) u 0 in
    let w := softmax u1 in
    mret (Times hEncsTensor w)).

End Dynamite.

Arguments MkModelT {H Base} fn GetParameterBlock.
Arguments fn {H Base} m.
Arguments GetParameterBlock {H Base} m.

(** ** Composition of models *)

(** Two more operations of the engine, used by [Sequential] and by the
    criterion of the static model. *)
Class GraphOps `{TensorEngine} : Type := {
  Combine : list Var -> Var;
  TransposeTimes : Var -> Var -> Var
}.

Section Composition.

Context `{GraphOps}.

(** [L"[" + std::to_wstring(i) + L"]"]. *)
Definition index_name (i : N) : string :=
  String.append "[" (String.append (pretty i) "]").

(** The loop of [Sequential] that fills [captured]:
    [captured[name] = fns[i].GetParameterBlock()]. *)
Definition Sequential_captured (fns : list UnaryModel)
    : Eng (gmap string (option ParameterBlock)) :=
  for_loop (N.of_nat (length fns))
    (fun i captured =>
       f ← vec_get fns i;
       mret (<[index_name i := GetParameterBlock f]> captured))
    ∅.

(** The range-based loop [for (f : fns) arg = f(arg)]. *)
Fixpoint apply_each (fns : list UnaryModel) (arg : Var) : Eng Var :=
  match fns with
  | [] => mret arg
  | f :: rest => arg' ← fn f arg; apply_each rest arg'
  end.

(** [Sequential]. *)
Definition Sequential (fns : list UnaryModel) : Eng UnaryModel :=
  captured ← Sequential_captured fns;
  ModelT_nested [] captured (fun x => apply_each fns (Combine [x])).

(** [CreateModelFunction]: the elements of the braced list are built from
    left to right. *)
Definition CreateModelFunction (numOutputClasses embeddingDim hiddenDim : N)
    (device : DeviceDescriptor) : Eng UnaryModel :=
  embed ← Embedding embeddingDim device;
  step ← RNNStep hiddenDim device;
  fold ← Sequence_Fold step;
  linear ← Linear numOutputClasses device;
  Sequential [embed; fold; linear].

(** [CreateCriterionFunction]. *)
Definition CreateCriterionFunction (model : UnaryModel) : BinaryModel :=
  ModelT_of (fun features labels =>
    z ← fn model features;
    mret (Minus (ReduceLogSum z AllStaticAxes) (TransposeTimes labels z))).

(** The per-item criterion inside [CreateCriterionFunctionUnrolled]. *)
Definition criterion_unrolled (model : UnaryModel) : BinaryModel :=
  ModelT_of (fun feature label =>
    z ← fn model feature;
    mret (Minus (ReduceLogSum z AllStaticAxes) (Times_rank label z 0))).

(** [CreateCriterionFunctionUnrolled]. *)
Definition CreateCriterionFunctionUnrolled (model : UnaryModel)
    : list Var -> list Var -> Eng Var :=
  let batchModel := Batch_Map_binary (criterion_unrolled model) in
  fun features labels =>
    losses ← batchModel features labels;
    let collatedLosses := Splice losses (StaticAxis 0) in
    mret (ReduceSum collatedLosses (StaticAxis 0)).

End Composition.

(** ** Vocabulary of the statements *)

Section Vocabulary.

Context `{TensorEngine}.

(** [m] ends with the outcome [o] from every world (it may change the
    world); [returns m a] when the outcome is the value [a]. *)
Definition yields {A : Type} (m : Eng A) (o : outcome A) : Prop :=
  forall w, fst (m w) = o.

Definition returns {A : Type} (m : Eng A) (a : A) : Prop :=
  yields m (Ok a).

(** The model [f] computes the function [g]: every call returns the value
    of [g] at the argument. *)
Definition computes1 (f : UnaryModel) (g : Var -> Var) : Prop :=
  forall x, returns (fn f x) (g x).

Definition computes2 (f : BinaryModel) (g : Var -> Var -> Var) : Prop :=
  forall x y, returns (fn f x y) (g x y).

Definition computes2_sequence (f : BinarySequenceModel)
    (g : list Var -> list Var -> list Var) : Prop :=
  forall x y, returns (fn f x y) (g x y).

(** The state after the first [j+1] steps over [l], from [s0]. *)
Definition state_after (g : Var -> Var -> Var) (s0 : Var) (l : list Var)
    (j : nat) : Var :=
  foldl g s0 (take (S j) l).


End Vocabulary.

Section Further_vocabulary.

Context `{GraphOps}.

(** [m] returns [a] and leaves the world as it was. *)
Definition evaluates {A : Type} (m : Eng A) (a : A) : Prop :=
  forall w, m w = (Ok a, w).

(** The first parameter of the list that carries the name, as
    [std::map::insert] keeps it. *)
Definition first_named (name : string)
    (parameters : list (Param_ DeviceDescriptor f32))
    : option (Param_ DeviceDescriptor f32) :=
  snd <$> list_find (fun p => Name p = name) parameters.

(** [model.Nested(block)[name]], as the training loop reads a parameter. *)
Definition Nested_lookup {Base : Type} (model : ModelT Base)
    (block name : string) : Eng (Param_ DeviceDescriptor f32) :=
  blk ← ModelT_Nested model block;
  ParameterBlock_lookup blk name.

(** [model.Nested(outer).Nested(inner)[name]]. *)
Definition Nested_Nested_lookup {Base : Type} (model : ModelT Base)
    (outer inner name : string) : Eng (Param_ DeviceDescriptor f32) :=
  blk ← ModelT_Nested model outer;
  blk' ← ParameterBlock_Nested blk inner;
  ParameterBlock_lookup blk' name.

(** The slice [Index(x, t)] returns when it is defined. *)
Definition slice_at (x : Var) (t : N) : Var :=
  Reshape (Index_slice x t) (removelast (Shape (Index_slice x t))).

(** The indices [0, 1, ..., n-1] as [size_t] values. *)
Definition indices (n : nat) : list N := N.of_nat <$> seq 0 n.

(** [variable.DynamicAxes().size() > 1]. *)
Definition has_sequence_axis (variable : Var) : bool :=
  (1 <? N.of_nat (length (DynamicAxes variable)))%N.

(** The constant [FromCNTKMB] makes of one unpacked sequence: of the view
    itself on a stream with a sequence axis, of the view reshaped without
    its last axis otherwise. *)
Definition as_constant (hasAxis : bool) (data : NDArrayView) : Var :=
  if hasAxis then Constant_view data
  else Constant_view (AsShape data (removelast (View_Shape data))).

(** What the sample axis of a sequence must be for [FromCNTKMB] to cut it:
    of extent 1. *)
Definition sample_axis_ok (hasAxis : bool) (data : NDArrayView) : Prop :=
  hasAxis = true \/ last (View_Shape data) = Some 1%N.

(** The constants of one stream. *)
Definition stream_constants (device : DeviceDescriptor) (input : Value)
    (variable : Var) : list Var :=
  as_constant (has_sequence_axis variable)
    <$> UnpackVariableValue input variable device.

(** The model [f] computes [g] and records one entry into the layer [name]
    per call, and nothing else. *)
Definition enters1 (name : string) (f : UnaryModel) (g : Var -> Var) : Prop :=
  forall v w,
    fn f v w = (Ok (g v), World (next_uid w) (trace w ++ [Enter name [v]])).

Definition enters2 (name : string) (f : BinaryModel) (g : Var -> Var -> Var)
    : Prop :=
  forall u v w,
    fn f u v w
    = (Ok (g u v), World (next_uid w) (trace w ++ [Enter name [u; v]])).

(** The state of the unrolled recurrence after the time steps [0..k-1] of
    [x], from [zero]. *)
Definition unrolled_state (ge : Var -> Var) (gs : Var -> Var -> Var)
    (zero x : Var) (k : nat) : Var :=
  foldl (fun state t => gs state (ge (slice_at x t))) zero (indices k).

(** The entries a recurrence over [l] records when its step enters the
    layer [name]: one per item, with the state before the item. *)
Definition recurrence_events (name : string) (g : Var -> Var -> Var)
    (s0 : Var) (l : list Var) : list event :=
  imap (fun j x => Enter name [foldl g s0 (take j l); x]) l.

End Further_vocabulary.

(** ** A symbolic engine

    An instance of [TensorEngine] on which the definitions above evaluate:
    every operation builds the term that names it, array views are their
    shapes, and a packed minibatch value is the list of its sequences. *)
Module Symbolic.

Inductive sym : Type :=
| Sym (op : string) (operands : list sym) (dims : list N) (axes : list Axis).

Definition dims_of (s : sym) : list N :=
  match s with Sym _ _ d _ => d end.

Definition axes_of (s : sym) : list Axis :=
  match s with Sym _ _ _ a => a end.

Definition node (op : string) (operands : list sym) (dims : list N) : sym :=
  Sym op operands dims [].

Definition unary (op : string) (a : sym) : sym := node op [a] (dims_of a).

Definition binary (op : string) (a b : sym) : sym :=
  node op [a; b] (dims_of b).

#[export] Instance engine : TensorEngine := {|
  Var := sym;
  Var_default := node "Variable" [] [];
  DeviceDescriptor := unit;
  f32 := Z;
  f32_zero := 0%Z;
  NDArrayView := list N;
  Value := list (list N);
  InferredDimension := (2 ^ 64 - 1)%N;
  Shape := dims_of;
  DynamicAxes := axes_of;
  Var_of_Parameter := fun p => node (Name p) [] (par_shape p);
  Constant_fill := fun shape _ _ => node "Constant" [] shape;
  Constant_view := fun view => node "Constant" [] view;
  InputVariable := fun shape _ _ name dynamicAxes => Sym name [] shape dynamicAxes;
  PlaceholderVariable := fun _ => node "Placeholder" [] [];
  Times := binary "Times";
  Times_rank := fun a b _ => binary "Times" a b;
  Plus := binary "Plus";
  Minus := binary "Minus";
  ReLU := unary "ReLU";
  Tanh := unary "Tanh";
  Exp := unary "Exp";
  ReduceSum := fun a _ => unary "ReduceSum" a;
  ReduceLogSum := fun a _ => unary "ReduceLogSum" a;
  Reshape := fun a shape => node "Reshape" [a] shape;
  Slice := fun a _ _ _ => unary "Slice" a;
  Splice := fun xs _ => node "Splice" xs [N.of_nat (length xs)];
  PastValue := unary "PastValue";
  ReplacePlaceholders := fun a _ => unary "ReplacePlaceholders" a;
  CNTK_Sequence_Last := unary "Sequence.Last";
  View_Shape := fun view => view;
  SliceView := fun _ _ extent _ => extent;
  AsShape := fun _ shape => shape;
  UnpackVariableValue := fun value _ _ => value
|}.

#[export] Instance graph_ops : GraphOps := {|
  Combine := fun xs => node "Combine" xs (default [] (dims_of <$> head xs));
  TransposeTimes := binary "TransposeTimes"
|}.

(** A tensor of one time step of width 3, a state, the initial world. *)
Definition x1 : Var := node "x" [] [3%N; 1%N].
Definition h0 : Var := node "h" [] [3%N].
Definition w0 : world := World 0 [].

(** A binary and a unary model with no parameter block. *)
Definition plus_model : BinaryModel :=
  ModelT_of (fun a b => mret (Plus a b)).

Definition relu_model : UnaryModel :=
  ModelT_of (fun a => mret (ReLU a)).

Definition append_model : BinarySequenceModel :=
  ModelT_of (fun a b => mret (a ++ b)).

(** A sequence input, a packed value of no sequence, and one of a single
    sequence of two samples. *)
Definition features : Var :=
  InputVariable [3%N] true Float "features"
    [DefaultBatchAxis; DefaultBatchAxis].
Definition no_sequence : Value := [].
Definition one_sequence : Value := [[3%N; 2%N]].
Definition cpu : DeviceDescriptor := tt.

(** A tensor of three time steps, a label input without sequence axis, a
    packed value of two one-sample sequences and one with a sequence of two
    samples. *)
Definition x3 : Var := node "x" [] [3%N; 3%N].
Definition labels : Var :=
  InputVariable [5%N] false Float "labels" [DefaultBatchAxis].
Definition two_samples : Value := [[5%N; 1%N]; [5%N; 1%N]].
Definition two_sequences : Value := [[3%N; 2%N]; [3%N; 4%N]].
Definition long_sample : Value := [[5%N; 1%N]; [5%N; 2%N]].

(** A step model that records its entries. *)
Definition recording_step : BinaryModel :=
  ModelT_of (fun a b => _ ← tick "step" [a; b]; mret (Plus a b)).

(** Two parameters of the same name, and one without a name. *)
Definition W1 : Param_ DeviceDescriptor f32 :=
  MkParam 0 [2%N] Float GlorotUniformInitializer tt "W".
Definition W2 : Param_ DeviceDescriptor f32 :=
  MkParam 1 [3%N] Float GlorotUniformInitializer tt "W".
Definition unnamed : Param_ DeviceDescriptor f32 :=
  MkParam 2 [3%N] Float GlorotUniformInitializer tt "".

(** A step model that throws on every call. *)
Definition throwing_step : BinaryModel :=
  ModelT_of (fun _ _ => throw_LogicError "step").

(** A step model that adds, and throws on an input of three columns. *)
Definition picky_step : BinaryModel :=
  ModelT_of (fun prev input =>
    match last (Shape input) with
    | Some 3%N => throw_LogicError "step"
    | _ => mret (Plus prev input)
    end).

End Symbolic.

(** * Properties *)

Section Properties.

Context `{TensorEngine}.

(** ** The monad *)

Lemma bind_Ok {A B : Type} (m : Eng A) (k : A -> Eng B) (w w' : world) (a : A) :
  m w = (Ok a, w') -> (m ≫= k) w = k a w'.
Proof. intros E. unfold mbind, Eng_bind. now rewrite E. Qed.

Lemma bind_ret {A B : Type} (a : A) (k : A -> Eng B) (w : world) :
  (mret a ≫= k) w = k a w.
Proof. reflexivity. Qed.

Lemma returns_ret {A : Type} (a : A) : returns (mret a) a.
Proof. intros w. reflexivity. Qed.

Lemma yields_bind {A B : Type} (m : Eng A) (k : A -> Eng B) (a : A)
    (o : outcome B) :
  returns m a -> yields (k a) o -> yields (m ≫= k) o.
Proof.
  intros Hm Hk w. specialize (Hm w).
  unfold mbind, Eng_bind. destruct (m w) as [o' w'].
  simpl in Hm. subst o'. apply Hk.
Qed.

Lemma fails_bind {A B : Type} (m : Eng A) (k : A -> Eng B) (e : failure) :
  yields m (Fail e) -> yields (m ≫= k) (Fail e).
Proof.
  intros Hm w. specialize (Hm w).
  unfold mbind, Eng_bind. destruct (m w) as [o' w'].
  simpl in Hm. now subst o'.
Qed.

Lemma returns_bind {A B : Type} (m : Eng A) (k : A -> Eng B) (a : A) (b : B) :
  returns m a -> returns (k a) b -> returns (m ≫= k) b.
Proof. apply yields_bind. Qed.

(** ** ParameterBlock *)

Lemma map_insert_new_lookup_ne {V : Type} (k k' : string) (v : V)
    (m : gmap string V) :
  k <> k' -> map_insert_new k v m !! k' = m !! k'.
Proof.
  intros Hne. unfold map_insert_new.
  destruct (m !! k); [reflexivity|]. now apply lookup_insert_ne.
Qed.

Lemma wstring_empty_false (s : string) : wstring_empty s = false -> s <> "".
Proof. destruct s; simpl; congruence. Qed.

(** The constructor never stores a parameter under the empty name. *)
Lemma insert_parameters_no_empty_name (parameters : list (Param_ DeviceDescriptor f32)) :
  forall m m' w w',
    insert_parameters parameters m w = (Ok m', w') ->
    m !! "" = None -> m' !! "" = None.
Proof.
  induction parameters as [|p rest IH]; intros m m' w w' Hrun Hm.
  - simpl in Hrun. injection Hrun as <- _. exact Hm.
  - simpl in Hrun. destruct (wstring_empty (Name p)) eqn:Hname.
    + discriminate Hrun.
    + eapply IH; [exact Hrun|].
      rewrite map_insert_new_lookup_ne; [exact Hm|].
      now apply wstring_empty_false.
Qed.

Lemma ParameterBlock_new_no_empty_name parameters nested pb w w' :
  ParameterBlock_new parameters nested w = (Ok pb, w') ->
  m_parameters pb !! "" = None.
Proof.
  unfold ParameterBlock_new, mbind, Eng_bind.
  destruct (insert_parameters parameters ∅ w) as [[m|e] w1] eqn:E;
    try discriminate.
  intros Hrun. injection Hrun as <- _. simpl.
  eapply insert_parameters_no_empty_name; [exact E|]. apply lookup_empty.
Qed.

(** The lookup of the empty name in a constructed block throws. *)
Lemma ParameterBlock_lookup_empty_name parameters nested pb w w' w1 :
  ParameterBlock_new parameters nested w = (Ok pb, w') ->
  ParameterBlock_lookup pb "" w1 = (Fail (LogicError "no such parameter: "), w1).
Proof.
  intros Hnew. unfold ParameterBlock_lookup.
  now rewrite (ParameterBlock_new_no_empty_name _ _ _ _ _ Hnew).
Qed.

(** C4: the lookup of a name that is not a key of the parameter map of a
    [ParameterBlock] (the empty string is such a name like any other) throws
    the [LogicError] "no such parameter: " followed by the name; the world is
    untouched and no parameter, default-constructed or other, is returned. *)
Theorem ParameterBlock_lookup_absent (pb : ParameterBlock) (name : string)
    (w : world) :
  m_parameters pb !! name = None ->
  ParameterBlock_lookup pb name w
  = (Fail (LogicError (String.append "no such parameter: " name)), w)
  /\ (forall p w', ParameterBlock_lookup pb name w <> (Ok p, w')).
Proof.
  intros Habs. unfold ParameterBlock_lookup. rewrite Habs.
  split; [reflexivity|]. intros p w' Heq. discriminate Heq.
Qed.

(** ** Recurrence on the empty sequence *)

(** C10: applied to the empty sequence, the model made by [Recurrence]
    returns the empty sequence and leaves the world as it was, whatever the
    step model (one that throws, or that records its calls in the trace,
    included), the initial state and the direction: the step is not invoked
    and the initial state is not read. *)
Theorem Recurrence_empty (step : BinaryModel) (initialState : Var)
    (goBackwards : bool) (w : world) :
  fn (Recurrence step initialState goBackwards) [] w = (Ok [], w).
Proof. reflexivity. Qed.

(** ** Batch::sum *)

Lemma allSummands_inner (acc item : list Var) :
  foldl (fun acc' seqItem => acc' ++ [seqItem]) acc item = acc ++ item.
Proof.
  revert acc. induction item as [|x item IH]; intros acc; simpl.
  - now rewrite app_nil_r.
  - rewrite IH. now rewrite <- app_assoc.
Qed.

Lemma allSummands_from (acc : list Var) (batch : list (list Var)) :
  foldl (fun acc batchItem =>
           foldl (fun acc' seqItem => acc' ++ [seqItem]) acc batchItem)
    acc batch
  = acc ++ concat batch.
Proof.
  revert acc. induction batch as [|item batch IH]; intros acc; simpl.
  - now rewrite app_nil_r.
  - rewrite IH, allSummands_inner. now rewrite <- app_assoc.
Qed.

Lemma allSummands_concat (batch : list (list Var)) :
  allSummands batch = concat batch.
Proof. unfold allSummands. now rewrite allSummands_from. Qed.

Lemma Batch_sum_cons (x : Var) (rest : list Var) (w : world) :
  Batch_sum (x :: rest) w
  = (Ok (Reshape
           (ReduceSum
              (Splice (x :: rest)
                 (StaticAxis (to_int (N.of_nat (length (Shape x))))))
              (StaticAxis (to_int (N.of_nat (length (Shape x))))))
           (Shape x)), w).
Proof. reflexivity. Qed.

(** C9: [Batch::sum] reads the first element of its argument whatever the
    argument is.  On a list [x :: rest] it returns the reshaped sum, built
    with the shape of [x]; on the empty list the read is undefined
    behaviour, and that is the only list on which it is.  The overload on a
    batch of sequences is undefined exactly when the concatenation of the
    sequences is empty, as for a batch of two empty sequences. *)
Theorem Batch_sum_domain :
  (forall (batch : list Var) (w : world),
      Batch_sum batch w = (Fail Undefined, w) <-> batch = [])
  /\ (forall (x : Var) (rest : list Var) (w : world),
         Batch_sum (x :: rest) w
         = (Ok (Reshape
                  (ReduceSum
                     (Splice (x :: rest)
                        (StaticAxis (to_int (N.of_nat (length (Shape x))))))
                     (StaticAxis (to_int (N.of_nat (length (Shape x))))))
                  (Shape x)), w))
  /\ (forall (batch : list (list Var)) (w : world),
         Batch_sum_nested batch w = (Fail Undefined, w) <-> concat batch = [])
  /\ (forall (w : world), Batch_sum_nested [[]; []] w = (Fail Undefined, w)).
Proof.
  split; [|split; [|split]].
  - intros [|x rest] w; split; intros Hyp; try reflexivity.
    + rewrite Batch_sum_cons in Hyp. discriminate Hyp.
    + discriminate Hyp.
  - intros x rest w. apply Batch_sum_cons.
  - intros batch w. unfold Batch_sum_nested. rewrite allSummands_concat.
    destruct (concat batch) as [|x rest]; split; intros Hyp; try reflexivity.
    + rewrite Batch_sum_cons in Hyp. discriminate Hyp.
    + discriminate Hyp.
  - intros w. reflexivity.
Qed.

(** ** Loops and vectors *)

Lemma vec_get_lookup {A : Type} (v : list A) (k : nat) (a : A) :
  v !! k = Some a -> vec_get v (N.of_nat k) = mret a.
Proof. intros E. unfold vec_get. now rewrite Nat2N.id, E. Qed.

Lemma vec_set_insert {A : Type} (v : list A) (k : nat) (a : A) :
  k < length v -> vec_set v (N.of_nat k) a = mret (<[k := a]> v).
Proof.
  intros Hk. unfold vec_set. rewrite Nat2N.id.
  destruct (N.ltb_spec (N.of_nat k) (N.of_nat (length v))) as [_|Hge];
    [reflexivity | lia].
Qed.

(** A loop whose body keeps an invariant, and returns from every world,
    returns a state satisfying the invariant at the final index. *)
Lemma for_from_invariant {S : Type} (I : nat -> S -> Prop)
    (body : N -> S -> Eng S) (n : nat) :
  (forall k s, k < n -> I k s ->
     exists s', returns (body (N.of_nat k) s) s' /\ I (Datatypes.S k) s') ->
  forall count k s, k + count = n -> I k s ->
    exists s', returns (for_from (N.of_nat k) count body s) s' /\ I n s'.
Proof.
  intros Hbody. induction count as [|count IH]; intros k s Hk HI.
  - exists s. split; [apply returns_ret|]. now replace n with k by lia.
  - destruct (Hbody k s ltac:(lia) HI) as (s1 & Hs1 & HI1).
    destruct (IH (Datatypes.S k) s1 ltac:(lia) HI1) as (s2 & Hs2 & HI2).
    exists s2. split; [|exact HI2].
    simpl. eapply returns_bind; [exact Hs1|].
    now rewrite <- Nat2N.inj_succ.
Qed.

Lemma for_loop_invariant {S : Type} (I : nat -> S -> Prop)
    (body : N -> S -> Eng S) (n : nat) (s : S) :
  (forall k s, k < n -> I k s ->
     exists s', returns (body (N.of_nat k) s) s' /\ I (Datatypes.S k) s') ->
  I 0 s ->
  exists s', returns (for_loop (N.of_nat n) body s) s' /\ I n s'.
Proof.
  intros Hbody HI. unfold for_loop. rewrite Nat2N.id.
  apply (for_from_invariant I body n Hbody n 0 s); [lia | exact HI].
Qed.

(** ** Batch::map and Batch::Map *)

Lemma push_back_each_returns (f : Var -> Eng Var) (g : Var -> Var) :
  (forall x, returns (f x) (g x)) ->
  forall batch res, returns (push_back_each f batch res) (res ++ (g <$> batch)).
Proof.
  intros Hf. induction batch as [|x rest IH]; intros res;
    cbn [push_back_each].
  - rewrite fmap_nil, app_nil_r. apply returns_ret.
  - rewrite fmap_cons.
    replace (res ++ g x :: (g <$> rest)) with ((res ++ [g x]) ++ (g <$> rest))
      by (rewrite <- app_assoc; reflexivity).
    eapply returns_bind; [apply Hf | apply IH].
Qed.

Lemma pair_loop_returns {A B : Type} (f : A -> A -> Eng B) (g : A -> A -> B)
    (xBatch yBatch : list A) :
  (forall x y, returns (f x y) (g x y)) ->
  length xBatch = length yBatch ->
  returns (pair_loop f xBatch yBatch) (zip_with g xBatch yBatch).
Proof.
  intros Hf Hlen. unfold pair_loop.
  destruct (for_loop_invariant
              (fun k res => res = zip_with g (take k xBatch) (take k yBatch))
              (fun i res =>
                 x ← vec_get xBatch i; y ← vec_get yBatch i;
                 r ← f x y; mret (res ++ [r]))
              (length xBatch) [])
    as (res & Hres & Hinv).
  - intros k s Hk ->.
    destruct (lookup_lt_is_Some_2 xBatch k Hk) as [x Hx].
    destruct (lookup_lt_is_Some_2 yBatch k ltac:(lia)) as [y Hy].
    exists (zip_with g (take k xBatch) (take k yBatch) ++ [g x y]). split.
    + rewrite (vec_get_lookup _ _ _ Hx), (vec_get_lookup _ _ _ Hy).
      eapply returns_bind; [apply returns_ret|].
      eapply returns_bind; [apply returns_ret|].
      eapply returns_bind; [apply Hf|]. apply returns_ret.
    + rewrite (take_S_r _ _ _ Hx), (take_S_r _ _ _ Hy).
      rewrite zip_with_app; [reflexivity|].
      rewrite !length_take. lia.
  - reflexivity.
  - rewrite Hinv in Hres.
    rewrite firstn_all in Hres. rewrite Hlen in Hres at 2.
    now rewrite firstn_all in Hres.
Qed.

Lemma assert_true (w : world) : assert_ true w = (Ok tt, w).
Proof. reflexivity. Qed.

Lemma size_eqb_of_nat (a b : nat) :
  (N.of_nat a =? N.of_nat b)%N = bool_decide (a = b).
Proof.
  destruct (N.eqb_spec (N.of_nat a) (N.of_nat b)) as [E|E];
    case_bool_decide; try reflexivity; lia.
Qed.

(** C8: when the binary model [f] computes [g] and the batches [A] and [B]
    have the same length N, the pairing [Batch::Map(f)] returns the list of
    length N whose element [i] is [g (A[i], B[i])]; when the unary model
    [fu] computes [gu], [Batch::map(fu, A)] returns the list of the same
    length and order whose element [i] is [gu (A[i])]. *)
Theorem Batch_Map_elementwise (f : BinaryModel) (g : Var -> Var -> Var)
    (fu : UnaryModel) (gu : Var -> Var) (A B : list Var) :
  computes2 f g -> computes1 fu gu -> length A = length B ->
  (exists res,
      returns (Batch_Map_binary f A B) res
      /\ length res = length A
      /\ forall i a b, A !! i = Some a -> B !! i = Some b ->
                       res !! i = Some (g a b))
  /\ (exists res,
         returns (Batch_map fu A) res
         /\ length res = length A
         /\ forall i a, A !! i = Some a -> res !! i = Some (gu a)).
Proof.
  intros Hf Hfu Hlen. split.
  - exists (zip_with g A B). split; [|split].
    + unfold Batch_Map_binary. rewrite size_eqb_of_nat.
      rewrite bool_decide_eq_true_2 by congruence.
      eapply returns_bind; [intros w; reflexivity|].
      now apply pair_loop_returns.
    + rewrite length_zip_with. lia.
    + intros i a b Ha Hb. rewrite lookup_zip_with, Ha. simpl. now rewrite Hb.
  - exists (gu <$> A). split; [|split].
    + unfold Batch_map. apply (push_back_each_returns (fn fu) gu Hfu A []).
    + apply length_fmap.
    + intros i a Ha. now rewrite list_lookup_fmap, Ha.
Qed.

(** The assertion is the only guard: the loop by itself runs over the
    indices of [xBatch], and would return as many results. *)
Lemma pair_loop_runs_over_xBatch (f : BinaryModel) (x y y' : Var) (r : Var)
    (w w' : world) :
  fn f x y w = (Ok r, w') ->
  pair_loop (fn f) [x] [y; y'] w = (Ok [r], w').
Proof.
  intros Hf. unfold pair_loop, for_loop.
  change (N.to_nat (N.of_nat (length [x]))) with 1%nat. cbn [for_from].
  cbv beta iota zeta delta [mbind Eng_bind mret Eng_ret vec_get N.to_nat
                              lookup list_lookup].
  now rewrite Hf.
Qed.

(** C3: on batches of unequal lengths both pairing overloads of
    [Batch::Map] stop at the failed assertion, before the model is called
    once; no list, truncated or partial, is returned. *)
Theorem Batch_Map_unequal_lengths (f : BinaryModel) (fs : BinarySequenceModel)
    (xBatch yBatch : list Var) (xSeqs ySeqs : list (list Var)) (w : world) :
  length xBatch <> length yBatch ->
  length xSeqs <> length ySeqs ->
  Batch_Map_binary f xBatch yBatch w = (Fail AssertFailed, w)
  /\ Batch_Map_binary_sequence fs xSeqs ySeqs w = (Fail AssertFailed, w).
Proof.
  intros Hne Hnes. unfold Batch_Map_binary, Batch_Map_binary_sequence.
  rewrite !size_eqb_of_nat.
  rewrite !bool_decide_eq_false_2 by congruence.
  split; reflexivity.
Qed.

(** ** Recurrence *)

(** Inside the loop of [Recurrence] no [size_t] subtraction wraps around. *)
Lemma size_sub_of_nat (a b : nat) :
  b <= a -> size_sub (N.of_nat a) (N.of_nat b) = N.of_nat (a - b).
Proof.
  intros Hle. unfold size_sub.
  destruct (N.leb_spec (N.of_nat b) (N.of_nat a)); lia.
Qed.

Lemma size_sub_pred (a : nat) :
  1 <= a -> size_sub (N.of_nat a) 1 = N.of_nat (a - 1).
Proof. intros Hle. now apply (size_sub_of_nat a 1). Qed.

Lemma size_sub_mirror (n t : nat) :
  t < n ->
  size_sub (size_sub (N.of_nat n) 1) (N.of_nat t) = N.of_nat (n - 1 - t).
Proof.
  intros Hlt. rewrite size_sub_pred by lia. apply size_sub_of_nat. lia.
Qed.

Lemma size_sub_mirror_pred (n t : nat) :
  1 <= t -> t < n ->
  size_sub (size_sub (N.of_nat n) 1) (size_sub (N.of_nat t) 1)
  = N.of_nat (n - t).
Proof.
  intros H1 Hlt. rewrite (size_sub_pred t) by lia.
  rewrite size_sub_mirror by lia. f_equal. lia.
Qed.

Lemma of_nat_eqb_0 (k : nat) : (N.of_nat k =? 0)%N = bool_decide (k = 0).
Proof. apply (size_eqb_of_nat k 0). Qed.

Lemma foldl_take_S {A B : Type} (g : A -> B -> A) (a : A) (l : list B)
    (k : nat) (x : B) :
  l !! k = Some x -> foldl g a (take (S k) l) = g (foldl g a (take k l)) x.
Proof. intros Hx. rewrite (take_S_r _ _ _ Hx). now rewrite foldl_app. Qed.

(** Left to right, slot [j] receives the state after [j+1] steps. *)
Lemma Recurrence_forward (step : BinaryModel) (g : Var -> Var -> Var)
    (s0 : Var) (seq : list Var) :
  computes2 step g ->
  exists res,
    returns (fn (Recurrence step s0 false) seq) res
    /\ length res = length seq
    /\ forall j, j < length seq -> res !! j = Some (state_after g s0 seq j).
Proof.
  intros Hstep. cbn [fn Recurrence ModelT_of].
  apply (for_loop_invariant
           (fun k res =>
              length res = length seq
              /\ forall j, j < k -> res !! j = Some (state_after g s0 seq j))).
  - intros k res Hk [Hlen Hslots].
    destruct (lookup_lt_is_Some_2 seq k Hk) as [x Hx].
    exists (<[k := g (foldl g s0 (take k seq)) x]> res). split.
    + unfold Recurrence_body. cbn [negb].
      eapply (returns_bind _ _ (foldl g s0 (take k seq))).
      { rewrite of_nat_eqb_0. case_bool_decide as Hk0.
        - subst k. apply returns_ret.
        - rewrite size_sub_pred by lia.
          rewrite (vec_get_lookup res (k - 1) (foldl g s0 (take k seq))).
          + apply returns_ret.
          + rewrite Hslots by lia. unfold state_after.
            now replace (S (k - 1)) with k by lia. }
      rewrite (vec_get_lookup _ _ _ Hx).
      eapply returns_bind; [apply returns_ret|].
      eapply returns_bind; [apply Hstep|].
      rewrite vec_set_insert by lia. apply returns_ret.
    + split; [now rewrite length_insert|].
      intros j Hj. destruct (decide (j = k)) as [->|Hne].
      * rewrite list_lookup_insert_eq by lia.
        unfold state_after. now rewrite (foldl_take_S _ _ _ _ _ Hx).
      * rewrite list_lookup_insert_ne by congruence. apply Hslots. lia.
  - split; [apply length_replicate|]. intros j Hj. lia.
Qed.

(** Right to left, slot [N-1-j] receives the state after [j+1] steps over
    the reversed sequence. *)
Lemma Recurrence_backward (step : BinaryModel) (g : Var -> Var -> Var)
    (s0 : Var) (seq : list Var) :
  computes2 step g ->
  exists res,
    returns (fn (Recurrence step s0 true) seq) res
    /\ length res = length seq
    /\ forall j, j < length seq ->
         res !! (length seq - 1 - j) = Some (state_after g s0 (reverse seq) j).
Proof.
  intros Hstep. cbn [fn Recurrence ModelT_of].
  apply (for_loop_invariant
           (fun k res =>
              length res = length seq
              /\ forall j, j < k ->
                   res !! (length seq - 1 - j)
                   = Some (state_after g s0 (reverse seq) j))).
  - intros k res Hk [Hlen Hslots].
    destruct (lookup_lt_is_Some_2 seq (length seq - 1 - k) ltac:(lia))
      as [x Hx].
    assert (Hrx : reverse seq !! k = Some x).
    { rewrite reverse_lookup by lia. rewrite <- Hx. f_equal; lia. }
    exists (<[length seq - 1 - k := g (foldl g s0 (take k (reverse seq))) x]>
              res).
    split.
    + unfold Recurrence_body. cbn [negb].
      eapply (returns_bind _ _ (foldl g s0 (take k (reverse seq)))).
      { rewrite of_nat_eqb_0. case_bool_decide as Hk0.
        - subst k. apply returns_ret.
        - rewrite size_sub_mirror_pred by lia.
          rewrite (vec_get_lookup res (length seq - k)
                     (foldl g s0 (take k (reverse seq)))).
          + apply returns_ret.
          + replace (length seq - k) with (length seq - 1 - (k - 1)) by lia.
            rewrite Hslots by lia. unfold state_after.
            now replace (S (k - 1)) with k by lia. }
      rewrite size_sub_mirror by lia.
      rewrite (vec_get_lookup _ _ _ Hx).
      eapply returns_bind; [apply returns_ret|].
      eapply returns_bind; [apply Hstep|].
      rewrite vec_set_insert by lia. apply returns_ret.
    + split; [now rewrite length_insert|].
      intros j Hj. destruct (decide (j = k)) as [->|Hne].
      * rewrite list_lookup_insert_eq by lia.
        unfold state_after. now rewrite (foldl_take_S _ _ _ _ _ Hrx).
      * rewrite list_lookup_insert_ne by lia. apply Hslots. lia.
  - split; [apply length_replicate|]. intros j Hj. lia.
Qed.

Lemma size_sub_mirror_0 (n : nat) :
  0 < n -> size_sub (size_sub (N.of_nat n) 1) 0 = N.of_nat (n - 1).
Proof.
  intros Hn. pose proof (size_sub_mirror n 0 Hn) as E.
  rewrite Nat.sub_0_r in E. exact E.
Qed.

Lemma for_loop_first {S : Type} (n : nat) (body : N -> S -> Eng S) (s : S) :
  0 < n ->
  for_loop (N.of_nat n) body s
  = (body 0%N s ≫= fun s' => for_from 1%N (n - 1) body s').
Proof.
  intros Hn. unfold for_loop. rewrite Nat2N.id.
  destruct n as [|n]; [lia|]. cbn [for_from]. now rewrite Nat.sub_1_r.
Qed.

(** On a sequence that is not empty the step is called: a step model that
    fails on every call makes the recurrence fail the same way. *)
Lemma Recurrence_nonempty_calls_step (step : BinaryModel) (initialState : Var)
    (goBackwards : bool) (seq : list Var) (e : failure) :
  seq <> [] ->
  (forall prev y, yields (fn step prev y) (Fail e)) ->
  yields (fn (Recurrence step initialState goBackwards) seq) (Fail e).
Proof.
  intros Hseq Hstep.
  assert (Hpos : 0 < length seq) by (destruct seq; [congruence | simpl; lia]).
  cbn [fn Recurrence ModelT_of]. rewrite for_loop_first by exact Hpos.
  apply fails_bind. unfold Recurrence_body.
  change (0 =? 0)%N with true. cbv iota.
  destruct goBackwards; cbn [negb].
  - destruct (lookup_lt_is_Some_2 seq (length seq - 1)) as [y Hy]; [lia|].
    eapply yields_bind; [apply returns_ret|].
    rewrite (size_sub_mirror_0 _ Hpos), (vec_get_lookup _ _ _ Hy).
    eapply yields_bind; [apply returns_ret|].
    apply fails_bind, Hstep.
  - destruct (lookup_lt_is_Some_2 seq 0 Hpos) as [y Hy].
    eapply yields_bind; [apply returns_ret|].
    unfold vec_get. change (N.to_nat 0) with 0%nat. rewrite Hy.
    eapply yields_bind; [apply returns_ret|].
    apply fails_bind, Hstep.
Qed.

(** C1: for a step model that computes [g] and a sequence of length N, the
    model made by [Recurrence] returns a sequence [res] of length N.  Left
    to right, [res[0] = g (s0, seq[0])] and [res[t] = g (res[t-1], seq[t])]
    for [1 <= t < N]; right to left, [res[N-1] = g (s0, seq[N-1])] and
    [res[N-1-t] = g (res[N-t], seq[N-1-t])] for [1 <= t < N]. *)
Theorem Recurrence_threads_state (step : BinaryModel) (g : Var -> Var -> Var)
    (s0 : Var) (seq : list Var) :
  computes2 step g ->
  (exists res,
      returns (fn (Recurrence step s0 false) seq) res
      /\ length res = length seq
      /\ (forall x, seq !! 0 = Some x -> res !! 0 = Some (g s0 x))
      /\ (forall t r x, 1 <= t -> t < length seq ->
            res !! (t - 1) = Some r -> seq !! t = Some x ->
            res !! t = Some (g r x)))
  /\ (exists res,
         returns (fn (Recurrence step s0 true) seq) res
         /\ length res = length seq
         /\ (forall x, seq !! (length seq - 1) = Some x ->
               res !! (length seq - 1) = Some (g s0 x))
         /\ (forall t r x, 1 <= t -> t < length seq ->
               res !! (length seq - t) = Some r ->
               seq !! (length seq - 1 - t) = Some x ->
               res !! (length seq - 1 - t) = Some (g r x))).
Proof.
  intros Hstep. split.
  - destruct (Recurrence_forward step g s0 seq Hstep)
      as (res & Hres & Hlen & Hslots).
    exists res. split; [exact Hres|]. split; [exact Hlen|]. split.
    + intros x Hx. pose proof (lookup_lt_Some _ _ _ Hx) as H0.
      rewrite Hslots by exact H0. unfold state_after.
      now rewrite (foldl_take_S _ _ _ _ _ Hx).
    + intros t r x H1 Ht Hr Hx.
      rewrite Hslots in Hr by lia. injection Hr as <-.
      rewrite Hslots by lia. unfold state_after.
      rewrite (foldl_take_S _ _ _ _ _ Hx).
      now replace (S (t - 1)) with t by lia.
  - destruct (Recurrence_backward step g s0 seq Hstep)
      as (res & Hres & Hlen & Hslots).
    exists res. split; [exact Hres|]. split; [exact Hlen|]. split.
    + intros x Hx. pose proof (lookup_lt_Some _ _ _ Hx) as H0.
      replace (length seq - 1) with (length seq - 1 - 0) by lia.
      rewrite Hslots by lia. unfold state_after.
      assert (Hrx : reverse seq !! 0 = Some x).
      { rewrite reverse_lookup by lia. rewrite <- Hx. f_equal; lia. }
      now rewrite (foldl_take_S _ _ _ _ _ Hrx).
    + intros t r x H1 Ht Hr Hx.
      replace (length seq - t) with (length seq - 1 - (t - 1)) in Hr by lia.
      rewrite Hslots in Hr by lia. injection Hr as <-.
      rewrite Hslots by lia. unfold state_after.
      assert (Hrx : reverse seq !! t = Some x).
      { rewrite reverse_lookup by lia. rewrite <- Hx. f_equal; lia. }
      rewrite (foldl_take_S _ _ _ _ _ Hrx).
      now replace (S (t - 1)) with t by lia.
Qed.

(** ** Fold *)

Lemma ModelT_nested_no_parameters {Base : Type}
    (nested : gmap string (option ParameterBlock)) (f : Base) (w : world) :
  ModelT_nested [] nested f w
  = (Ok (MkModelT f (Some (MkParameterBlock ∅ nested))), w).
Proof. reflexivity. Qed.


(** Whatever the recurrence does, [fold] does the same and then takes
    [Sequence::Last]. *)
Lemma Fold_run (stepFunction : BinaryModel) (w : world) :
  exists fold,
    Sequence_Fold stepFunction w = (Ok fold, w)
    /\ forall x w0,
         fn fold x w0
         = (fn (Sequence_Recurrence stepFunction) x ≫= Sequence_Last) w0.
Proof.
  unfold Sequence_Fold. rewrite ModelT_nested_no_parameters.
  eexists. split; reflexivity.
Qed.

(** ** Minibatch adaptation *)

Lemma resize_nil (n : nat) :
  resize [] (N.of_nat n) = replicate n Var_default.
Proof.
  unfold resize. rewrite Nat2N.id, take_nil. cbn [app length].
  now rewrite Nat.sub_0_r.
Qed.

(** The inner loop on a stream with a sequence axis: one constant per
    unpacked sequence. *)
Lemma FromCNTKMB_item_loop (sequences : list NDArrayView) :
  returns
    (for_loop (N.of_nat (length sequences)) (FromCNTKMB_item true sequences)
       (replicate (length sequences) Var_default))
    (Constant_view <$> sequences).
Proof.
  destruct (for_loop_invariant
              (fun k arg =>
                 length arg = length sequences
                 /\ forall j, j < k ->
                      arg !! j = Constant_view <$> (sequences !! j))
              (FromCNTKMB_item true sequences) (length sequences)
              (replicate (length sequences) Var_default))
    as (arg & Harg & Hlen & Hslots).
  - intros k arg Hk [Hlen Hslots].
    destruct (lookup_lt_is_Some_2 sequences k Hk) as [data Hdata].
    exists (<[k := Constant_view data]> arg). split.
    + unfold FromCNTKMB_item. cbn [negb].
      rewrite (vec_get_lookup _ _ _ Hdata).
      eapply returns_bind; [apply returns_ret|].
      eapply returns_bind; [apply returns_ret|].
      rewrite vec_set_insert by lia. apply returns_ret.
    + split; [now rewrite length_insert|].
      intros j Hj. destruct (decide (j = k)) as [->|Hne].
      * rewrite list_lookup_insert_eq by lia. now rewrite Hdata.
      * rewrite list_lookup_insert_ne by congruence. apply Hslots. lia.
  - split; [apply length_replicate|]. intros j Hj. lia.
  - replace (Constant_view <$> sequences) with arg; [exact Harg|].
    apply list_eq. intros j. rewrite list_lookup_fmap.
    destruct (decide (j < length sequences)) as [Hj|Hj].
    + now apply Hslots.
    + rewrite (lookup_ge_None_2 arg) by lia.
      now rewrite (lookup_ge_None_2 sequences) by lia.
Qed.

(** The outer body on a stream with a sequence axis, while [numSeq] is
    still 0: the stream's own count is taken, whatever it is. *)
Lemma FromCNTKMB_body_unset (inputs : list Value) (variables : list Var)
    (device : DeviceDescriptor) (i : nat) (input : Value) (variable : Var)
    (res : list (list Var)) :
  inputs !! i = Some input -> variables !! i = Some variable ->
  res !! i = Some [] ->
  (1 < length (DynamicAxes variable)) ->
  returns (FromCNTKMB_body inputs variables device (N.of_nat i) (res, 0%N))
    (<[i := Constant_view <$> UnpackVariableValue input variable device]> res,
     N.of_nat (length (UnpackVariableValue input variable device))).
Proof.
  intros Hin Hvar Hres Haxes. unfold FromCNTKMB_body.
  rewrite (vec_get_lookup _ _ _ Hin), (vec_get_lookup _ _ _ Hvar),
    (vec_get_lookup _ _ _ Hres).
  eapply returns_bind; [apply returns_ret|].
  eapply returns_bind; [apply returns_ret|].
  cbv zeta. rewrite N.eqb_refl.
  eapply returns_bind; [apply returns_ret|].
  eapply returns_bind; [apply returns_ret|].
  replace (1 <? N.of_nat (length (DynamicAxes variable)))%N with true
    by (symmetry; apply N.ltb_lt; lia).
  rewrite resize_nil.
  eapply returns_bind; [apply FromCNTKMB_item_loop|].
  rewrite vec_set_insert by (now apply lookup_lt_Some in Hres).
  eapply returns_bind; [apply returns_ret|]. apply returns_ret.
Qed.

(** The outer body once [numSeq] is set: another count throws. *)
Lemma FromCNTKMB_body_mismatch (inputs : list Value) (variables : list Var)
    (device : DeviceDescriptor) (i : nat) (input : Value) (variable : Var)
    (res : list (list Var)) (numSeq : nat) :
  inputs !! i = Some input -> variables !! i = Some variable ->
  numSeq <> 0 ->
  numSeq <> length (UnpackVariableValue input variable device) ->
  yields (FromCNTKMB_body inputs variables device (N.of_nat i)
            (res, N.of_nat numSeq))
    (Fail (LogicError "inconsistent MB size")).
Proof.
  intros Hin Hvar Hset Hne. unfold FromCNTKMB_body.
  rewrite (vec_get_lookup _ _ _ Hin), (vec_get_lookup _ _ _ Hvar).
  eapply yields_bind; [apply returns_ret|].
  eapply yields_bind; [apply returns_ret|].
  cbv zeta. rewrite of_nat_eqb_0, size_eqb_of_nat.
  rewrite !bool_decide_eq_false_2 by assumption.
  intros w. reflexivity.
Qed.

(** Where the check works: after a first stream of [n > 0] sequences, a
    second stream of another count throws "inconsistent MB size". *)
Lemma FromCNTKMB_inconsistent (in0 in1 : Value) (v0 v1 : Var)
    (device : DeviceDescriptor) :
  1 < length (DynamicAxes v0) ->
  length (UnpackVariableValue in0 v0 device) <> 0 ->
  length (UnpackVariableValue in0 v0 device)
  <> length (UnpackVariableValue in1 v1 device) ->
  yields (FromCNTKMB [in0; in1] [v0; v1] device)
    (Fail (LogicError "inconsistent MB size")).
Proof.
  intros Haxes Hset Hne. unfold FromCNTKMB, for_loop.
  cbn [length N.of_nat N.to_nat Pos.of_succ_nat Pos.succ Pos.to_nat
         Pos.iter_op Nat.add for_from replicate].
  apply fails_bind.
  eapply yields_bind.
  { apply (FromCNTKMB_body_unset [in0; in1] [v0; v1] device 0 in0 v0);
      [reflexivity | reflexivity | reflexivity | exact Haxes]. }
  apply fails_bind.
  apply (FromCNTKMB_body_mismatch [in0; in1] [v0; v1] device 1 in1 v1);
    [reflexivity | reflexivity | exact Hset | exact Hne].
Qed.

(** C5, at the input that breaks it: when the first stream unpacks to no
    sequence, [numSeq] is still 0 when the second stream is reached, its
    count is taken without comparison, and the call returns: an empty
    first argument and one constant per sequence of the second stream,
    however many (here at least one) there are. *)
Theorem FromCNTKMB_empty_first_stream (in0 in1 : Value) (v0 v1 : Var)
    (device : DeviceDescriptor) :
  UnpackVariableValue in0 v0 device = [] ->
  UnpackVariableValue in1 v1 device <> [] ->
  1 < length (DynamicAxes v0) ->
  1 < length (DynamicAxes v1) ->
  returns (FromCNTKMB [in0; in1] [v0; v1] device)
    [[]; Constant_view <$> UnpackVariableValue in1 v1 device].
Proof.
  intros Hempty _ Haxes0 Haxes1. unfold FromCNTKMB, for_loop.
  cbn [length N.of_nat N.to_nat Pos.of_succ_nat Pos.succ Pos.to_nat
         Pos.iter_op Nat.add for_from replicate].
  apply (returns_bind _ _
           ([[]; Constant_view <$> UnpackVariableValue in1 v1 device],
            N.of_nat (length (UnpackVariableValue in1 v1 device))));
    [|apply returns_ret].
  eapply returns_bind.
  { apply (FromCNTKMB_body_unset [in0; in1] [v0; v1] device 0 in0 v0);
      [reflexivity | reflexivity | reflexivity | exact Haxes0]. }
  rewrite Hempty. cbn [length N.of_nat fmap list_fmap insert list_insert].
  eapply returns_bind; [|apply returns_ret].
  apply (FromCNTKMB_body_unset [in0; in1] [v0; v1] device 1 in1 v1);
    [reflexivity | reflexivity | reflexivity | exact Haxes1].
Qed.

(** ** The unrolled classifier on one time step *)

Lemma Index_returns (x : Var) (i : N) (w : world) :
  Shape (Index_slice x i) <> [] ->
  Index x i w
  = (Ok (Reshape (Index_slice x i) (removelast (Shape (Index_slice x i)))), w).
Proof.
  intros Hrank. unfold Index.
  destruct (Shape (Index_slice x i)) as [|d dims]; [congruence | reflexivity].
Qed.

Lemma vec_back_last {A : Type} (v : list A) (a : A) (w : world) :
  last v = Some a -> vec_back v w = (Ok a, w).
Proof. intros E. unfold vec_back. now rewrite E. Qed.

(** On a tensor of one time step the closure is one call of the embedding
    on the slice, one call of the step from [zero], one call of the linear
    layer, in this order, whatever the three models do. *)
Lemma CreateModelFunctionUnrolled_fn_one_step (embed : UnaryBroadcastingModel)
    (step : BinaryModel) (linear : UnaryBroadcastingModel) (zero x : Var)
    (w : world) :
  last (Shape x) = Some 1%N ->
  Shape (Index_slice x 0) <> [] ->
  CreateModelFunctionUnrolled_fn embed step linear zero x w
  = (xt ← fn embed (Reshape (Index_slice x 0)
                      (removelast (Shape (Index_slice x 0))));
     state ← fn step zero xt;
     fn linear state) w.
Proof.
  intros Hlen Hrank. unfold CreateModelFunctionUnrolled_fn.
  rewrite (bind_Ok _ _ _ _ _ (vec_back_last _ _ w Hlen)).
  unfold for_loop, Broadcast_item.
  change (N.to_nat 1) with 1%nat. cbn [for_from].
  unfold mbind, Eng_bind, mret, Eng_ret.
  rewrite (Index_returns x 0 w Hrank).
  destruct (fn embed _ w) as [[xt|e] w2]; [|reflexivity].
  destruct (fn step zero xt w2) as [[state|e] w3]; reflexivity.
Qed.

(** C6: [CreateModelFunctionUnrolled] with 5 output classes, embedding
    dimension 50 and hidden dimension 25 builds its model, allocating the
    six parameters [E], [W], [R], [b], [W], [b].  Applied to a tensor [x]
    whose last dimension is 1, with [x0] the slice [Index(x, 0)] (whose
    slicing keeps at least one axis), the model returns
    [linear (step (zero, embed x0))], where [zero] is the constant of shape
    [25] filled with 0; the trace grows by exactly three events: one entry
    into the embedding, one into the step on [(zero, embed x0)], one into the
    linear layer. *)
Theorem CreateModelFunctionUnrolled_one_step (device : DeviceDescriptor)
    (x : Var) (w w1 : world) :
  last (Shape x) = Some 1%N ->
  Shape (Index_slice x 0) <> [] ->
  let u := next_uid w in
  let E := MkParam u [50%N; InferredDimension] Float
             GlorotUniformInitializer device "E" in
  let W := MkParam (1 + u) [25%N; InferredDimension] Float
             GlorotUniformInitializer device "W" in
  let R := MkParam (2 + u) [25%N; 25%N] Float
             GlorotUniformInitializer device "R" in
  let b := MkParam (3 + u) [25%N] Float (ConstantInitializer f32_zero)
             device "b" in
  let Wl := MkParam (4 + u) [5%N; InferredDimension] Float
              GlorotUniformInitializer device "W" in
  let bl := MkParam (5 + u) [5%N] Float (ConstantInitializer f32_zero)
              device "b" in
  let embed := fun v => Times (Var_of_Parameter E) v in
  let step := fun prev v =>
    ReLU (Plus (Plus (Times (Var_of_Parameter W) v)
                     (Times (Var_of_Parameter R) prev))
               (Var_of_Parameter b)) in
  let linear := fun v => Plus (Times (Var_of_Parameter Wl) v)
                              (Var_of_Parameter bl) in
  let zero := Constant_fill [25%N] f32_zero device in
  let x0 := Reshape (Index_slice x 0)
              (removelast (Shape (Index_slice x 0))) in
  exists model,
    CreateModelFunctionUnrolled 5 50 25 device w
    = (Ok model, World (6 + u) (trace w))
    /\ fn model x w1
       = (Ok (linear (step zero (embed x0))),
          World (next_uid w1)
            (trace w1 ++ [Enter "Embedding" [x0];
                          Enter "RNNStep" [zero; embed x0];
                          Enter "Linear" [step zero (embed x0)]])).
Proof.
  intros Hlen Hrank u E W R b Wl bl embed step linear zero x0.
  eexists. split.
  - reflexivity.
  - cbn [fn].
    rewrite (CreateModelFunctionUnrolled_fn_one_step _ _ _ _ _ _ Hlen Hrank).
    cbn [fn]. cbv beta iota zeta delta [mbind Eng_bind mret Eng_ret tick].
    cbn [next_uid trace].
    rewrite <- !app_assoc. reflexivity.
Qed.

(** ** Attention *)

(** What [AttentionModel] builds on one encoder state: the product of the
    one-column tensor of that state with the softmax node of its score.
    That the node's value is 1 is a fact of the engine's floating-point
    [ReduceLogSum] and [Exp], outside this development. *)
Lemma AttentionModel_one_state (attentionDim : N) (device : DeviceDescriptor)
    (hEnc hDec : Var) (w w1 : world) :
  exists attend,
    AttentionModel attentionDim device w
    = (Ok attend, World (3 + next_uid w) (trace w))
    /\ exists score,
         attend [hEnc] hDec w1
         = (Ok (Times (Splice [hEnc] (StaticAxis 1))
                  (Exp (Minus score (ReduceLogSum score AllStaticAxes)))), w1).
Proof.
  eexists. split; [reflexivity|]. eexists. reflexivity.
Qed.

End Properties.

(** * The statements on the symbolic engine *)

#[local] Existing Instance Symbolic.engine.

(** One named parameter is stored; the empty name is looked up. *)
Lemma ParameterBlock_lookup_absent_witness :
  let W := MkParam 0 [2%N] Float GlorotUniformInitializer tt "W" in
  let pb := MkParameterBlock {[ "W" := W ]} ∅ in
  m_parameters pb !! "" = None
  /\ ParameterBlock_lookup pb "" Symbolic.w0
     = (Fail (LogicError "no such parameter: "), Symbolic.w0).
Proof.
  intros W pb.
  assert (Habs : m_parameters pb !! "" = None) by reflexivity.
  split; [exact Habs|].
  exact (proj1 (ParameterBlock_lookup_absent pb "" Symbolic.w0 Habs)).
Defined.


Lemma plus_model_computes : computes2 Symbolic.plus_model Plus.
Proof. intros x y w. reflexivity. Defined.

(** Two steps from [h0], in both directions. *)
Lemma Recurrence_threads_state_witness :
  computes2 Symbolic.plus_model Plus
  /\ (exists res,
         returns (fn (Recurrence Symbolic.plus_model Symbolic.h0 false)
                    [Symbolic.x1; Symbolic.h0]) res
         /\ length res = 2
         /\ res !! 0 = Some (Plus Symbolic.h0 Symbolic.x1))
  /\ (exists res,
         returns (fn (Recurrence Symbolic.plus_model Symbolic.h0 true)
                    [Symbolic.x1; Symbolic.h0]) res
         /\ length res = 2
         /\ res !! 1 = Some (Plus Symbolic.h0 Symbolic.h0)).
Proof.
  split; [exact plus_model_computes|].
  destruct (Recurrence_threads_state Symbolic.plus_model Plus Symbolic.h0
              [Symbolic.x1; Symbolic.h0] plus_model_computes)
    as [(resF & HF & HlenF & HF0 & _) (resB & HB & HlenB & HB0 & _)].
  split.
  - exists resF. split; [exact HF|]. split; [exact HlenF|].
    apply HF0. reflexivity.
  - exists resB. split; [exact HB|]. split; [exact HlenB|].
    apply (HB0 Symbolic.h0). reflexivity.
Defined.

(** One item against two, one sequence against none. *)
Lemma Batch_Map_unequal_lengths_witness :
  length [Symbolic.x1] <> length [Symbolic.x1; Symbolic.h0]
  /\ length [[Symbolic.x1]] <> length (@nil (list Var))
  /\ Batch_Map_binary Symbolic.plus_model [Symbolic.x1]
       [Symbolic.x1; Symbolic.h0] Symbolic.w0
     = (Fail AssertFailed, Symbolic.w0)
  /\ Batch_Map_binary_sequence Symbolic.append_model
       [[Symbolic.x1]] [] Symbolic.w0
     = (Fail AssertFailed, Symbolic.w0).
Proof.
  assert (H1 : length [Symbolic.x1] <> length [Symbolic.x1; Symbolic.h0])
    by (simpl; lia).
  assert (H2 : length [[Symbolic.x1]] <> length (@nil (list Var)))
    by (simpl; lia).
  split; [exact H1|]. split; [exact H2|].
  exact (Batch_Map_unequal_lengths Symbolic.plus_model Symbolic.append_model
           [Symbolic.x1] [Symbolic.x1; Symbolic.h0] [[Symbolic.x1]] []
           Symbolic.w0 H1 H2).
Defined.

Lemma relu_model_computes : computes1 Symbolic.relu_model ReLU.
Proof. intros x w. reflexivity. Defined.

(** Two items against two. *)
Lemma Batch_Map_elementwise_witness :
  computes2 Symbolic.plus_model Plus
  /\ computes1 Symbolic.relu_model ReLU
  /\ length [Symbolic.x1; Symbolic.h0] = length [Symbolic.h0; Symbolic.h0]
  /\ (exists res,
         returns (Batch_Map_binary Symbolic.plus_model
                    [Symbolic.x1; Symbolic.h0] [Symbolic.h0; Symbolic.h0]) res
         /\ res !! 1 = Some (Plus Symbolic.h0 Symbolic.h0))
  /\ (exists res,
         returns (Batch_map Symbolic.relu_model [Symbolic.x1; Symbolic.h0]) res
         /\ res !! 0 = Some (ReLU Symbolic.x1)).
Proof.
  assert (Hlen : length [Symbolic.x1; Symbolic.h0]
                 = length [Symbolic.h0; Symbolic.h0]) by reflexivity.
  split; [exact plus_model_computes|]. split; [exact relu_model_computes|].
  split; [exact Hlen|].
  destruct (Batch_Map_elementwise Symbolic.plus_model Plus
              Symbolic.relu_model ReLU
              [Symbolic.x1; Symbolic.h0] [Symbolic.h0; Symbolic.h0]
              plus_model_computes relu_model_computes Hlen)
    as [(res2 & H2 & _ & Hat2) (res1 & H1 & _ & Hat1)].
  split.
  - exists res2. split; [exact H2|]. apply Hat2; reflexivity.
  - exists res1. split; [exact H1|]. apply Hat1; reflexivity.
Defined.

(** A first stream of no sequence, a second stream of one sequence of
    two samples over 3 features: the call returns. *)
Lemma FromCNTKMB_empty_first_stream_witness :
  UnpackVariableValue Symbolic.no_sequence Symbolic.features Symbolic.cpu = []
  /\ UnpackVariableValue Symbolic.one_sequence Symbolic.features Symbolic.cpu
     <> []
  /\ 1 < length (DynamicAxes Symbolic.features)
  /\ returns (FromCNTKMB [Symbolic.no_sequence; Symbolic.one_sequence]
                [Symbolic.features; Symbolic.features] Symbolic.cpu)
       [[]; [Constant_view [3%N; 2%N]]].
Proof.
  assert (H0 : UnpackVariableValue Symbolic.no_sequence Symbolic.features
                 Symbolic.cpu = []) by reflexivity.
  assert (H1 : UnpackVariableValue Symbolic.one_sequence Symbolic.features
                 Symbolic.cpu <> []) by discriminate.
  assert (Hax : 1 < length (DynamicAxes Symbolic.features)) by (simpl; lia).
  split; [exact H0|]. split; [exact H1|]. split; [exact Hax|].
  exact (FromCNTKMB_empty_first_stream Symbolic.no_sequence
           Symbolic.one_sequence Symbolic.features Symbolic.features
           Symbolic.cpu H0 H1 Hax Hax).
Defined.

(** The classifier on the one-step tensor [x1]: three events, in order. *)
Lemma CreateModelFunctionUnrolled_one_step_witness :
  last (Shape Symbolic.x1) = Some 1%N
  /\ Shape (Index_slice Symbolic.x1 0) <> []
  /\ exists model y,
       CreateModelFunctionUnrolled 5 50 25 Symbolic.cpu Symbolic.w0
       = (Ok model, World 6 [])
       /\ fst (fn model Symbolic.x1 Symbolic.w0) = Ok y
       /\ layer <$> trace (snd (fn model Symbolic.x1 Symbolic.w0))
          = ["Embedding"; "RNNStep"; "Linear"].
Proof.
  assert (Hlen : last (Shape Symbolic.x1) = Some 1%N) by reflexivity.
  assert (Hrank : Shape (Index_slice Symbolic.x1 0) <> []) by discriminate.
  split; [exact Hlen|]. split; [exact Hrank|].
  destruct (CreateModelFunctionUnrolled_one_step Symbolic.cpu Symbolic.x1
              Symbolic.w0 Symbolic.w0 Hlen Hrank) as (model & Hbuild & Hrun).
  exists model. eexists. split; [exact Hbuild|].
  rewrite Hrun. split; reflexivity.
Defined.

(** * Further properties of the code *)

Section Further_properties.

Context `{GraphOps}.

(** ** The constructor of ParameterBlock *)

Lemma wstring_empty_spec (s : string) : wstring_empty s = true <-> s = "".
Proof. destruct s; simpl; split; congruence. Qed.

Lemma insert_parameters_unnamed
    (parameters : list (Param_ DeviceDescriptor f32)) :
  forall m w,
    (exists p, p ∈ parameters /\ Name p = "") ->
    insert_parameters parameters m w
    = (Fail (LogicError "parameters must be named"), w).
Proof.
  induction parameters as [|q rest IH]; intros m w (p & Hin & Hname).
  - apply elem_of_nil in Hin. contradiction.
  - cbn [insert_parameters].
    destruct (wstring_empty (Name q)) eqn:Hq; [reflexivity|].
    apply IH. exists p. split; [|exact Hname].
    apply elem_of_cons in Hin as [->|Hin]; [|exact Hin].
    apply wstring_empty_spec in Hname. congruence.
Qed.

(** X1: a parameter list that holds a parameter with the empty name makes
    the construction of the block throw "parameters must be named",
    wherever the parameter stands in the list and whatever the others
    are. *)
Theorem ParameterBlock_new_unnamed
    (parameters : list (Param_ DeviceDescriptor f32))
    (nested : gmap string (option ParameterBlock)) (w : world) :
  (exists p, p ∈ parameters /\ Name p = "") ->
  ParameterBlock_new parameters nested w
  = (Fail (LogicError "parameters must be named"), w).
Proof.
  intros Hunnamed. unfold ParameterBlock_new, mbind, Eng_bind.
  now rewrite (insert_parameters_unnamed parameters ∅ w Hunnamed).
Qed.

Lemma insert_parameters_named
    (parameters : list (Param_ DeviceDescriptor f32)) :
  Forall (fun p => Name p <> "") parameters ->
  forall m w, exists m',
    insert_parameters parameters m w = (Ok m', w)
    /\ forall name,
         m' !! name = match m !! name with
                      | Some p => Some p
                      | None => first_named name parameters
                      end.
Proof.
  unfold first_named.
  induction 1 as [|q rest Hq Hrest IH]; intros m w.
  - exists m. split; [reflexivity|]. intros name. now destruct (m !! name).
  - cbn [insert_parameters].
    destruct (wstring_empty (Name q)) eqn:Hempty.
    { apply wstring_empty_spec in Hempty. contradiction. }
    destruct (IH (map_insert_new (Name q) q m) w) as (m' & Hrun & Hlook).
    exists m'. split; [exact Hrun|]. intros name. rewrite Hlook.
    cbn [list_find]. unfold map_insert_new.
    destruct (decide (Name q = name)) as [<-|Hne].
    + destruct (m !! Name q) as [p|] eqn:Hm.
      * now rewrite Hm.
      * now rewrite lookup_insert_eq.
    + destruct (m !! Name q) as [p|] eqn:Hm.
      * destruct (m !! name); [reflexivity|].
        now destruct (list_find (fun p0 => Name p0 = name) rest) as [[? ?]|].
      * rewrite lookup_insert_ne by exact Hne.
        destruct (m !! name); [reflexivity|].
        now destruct (list_find (fun p0 => Name p0 = name) rest) as [[? ?]|].
Qed.

(** X2: when every parameter of the list is named the block is built, it
    keeps the nested map it is given, and the lookup of a name returns the
    first parameter of the list with that name (a later parameter of the
    same name is dropped, not stored over it), or throws when the list has
    none. *)
Theorem ParameterBlock_new_lookup
    (parameters : list (Param_ DeviceDescriptor f32))
    (nested : gmap string (option ParameterBlock)) (w : world) :
  Forall (fun p => Name p <> "") parameters ->
  exists pb,
    ParameterBlock_new parameters nested w = (Ok pb, w)
    /\ m_parentParameters pb = nested
    /\ forall name w',
         ParameterBlock_lookup pb name w'
         = match first_named name parameters with
           | Some p => (Ok p, w')
           | None =>
               (Fail (LogicError (String.append "no such parameter: " name)),
                w')
           end.
Proof.
  intros Hnamed.
  destruct (insert_parameters_named parameters Hnamed ∅ w)
    as (m' & Hrun & Hlook).
  exists (MkParameterBlock m' nested). split; [|split].
  - unfold ParameterBlock_new, mbind, Eng_bind. now rewrite Hrun.
  - reflexivity.
  - intros name w'. unfold ParameterBlock_lookup. cbn [m_parameters].
    rewrite Hlook, lookup_empty.
    now destruct (first_named name parameters).
Qed.

(** ** Parameter paths of the two classifiers *)

(** X3: the model built by [CreateModelFunctionUnrolled] answers the six
    parameter paths the training loop reads: [Nested("embed")["E"]],
    [Nested("step")["W"]], ["R"], ["b"] and [Nested("linear")["W"]], ["b"]
    return the six parameters in the order of their allocation; a nested
    name other than the three throws "no such captured model". *)
Theorem CreateModelFunctionUnrolled_paths
    (numOutputClasses embeddingDim hiddenDim : N) (device : DeviceDescriptor)
    (w : world) (name : string) :
  name <> "embed" -> name <> "step" -> name <> "linear" ->
  let u := next_uid w in
  let E := MkParam u [embeddingDim; InferredDimension] Float
             GlorotUniformInitializer device "E" in
  let W := MkParam (1 + u) [hiddenDim; InferredDimension] Float
             GlorotUniformInitializer device "W" in
  let R := MkParam (2 + u) [hiddenDim; hiddenDim] Float
             GlorotUniformInitializer device "R" in
  let b := MkParam (3 + u) [hiddenDim] Float (ConstantInitializer f32_zero)
             device "b" in
  let Wl := MkParam (4 + u) [numOutputClasses; InferredDimension] Float
              GlorotUniformInitializer device "W" in
  let bl := MkParam (5 + u) [numOutputClasses] Float
              (ConstantInitializer f32_zero) device "b" in
  exists model,
    CreateModelFunctionUnrolled numOutputClasses embeddingDim hiddenDim
      device w
    = (Ok model, World (6 + u) (trace w))
    /\ evaluates (Nested_lookup model "embed" "E") E
    /\ evaluates (Nested_lookup model "step" "W") W
    /\ evaluates (Nested_lookup model "step" "R") R
    /\ evaluates (Nested_lookup model "step" "b") b
    /\ evaluates (Nested_lookup model "linear" "W") Wl
    /\ evaluates (Nested_lookup model "linear" "b") bl
    /\ forall w',
         ModelT_Nested model name w'
         = (Fail (LogicError (String.append "no such captured model: " name)),
            w').
Proof.
  intros Hembed Hstep Hlinear u E W R b Wl bl.
  eexists. split; [reflexivity|].
  repeat (split; [intros w'; reflexivity|]).
  intros w'. unfold ModelT_Nested, ParameterBlock_Nested.
  cbn [GetParameterBlock m_parentParameters].
  rewrite !map_insert_new_lookup_ne by congruence.
  now rewrite lookup_empty.
Qed.

(** X4: the model built by [CreateModelFunction] answers the paths the
    training loop copies from: [Nested("[0]")["E"]] is the embedding
    matrix, [Nested("[1]").Nested("step")] holds ["W"], ["R"], ["b"] of the
    step under the fold, and [Nested("[2]")] holds ["W"], ["b"] of the
    linear layer. *)
Theorem CreateModelFunction_paths
    (numOutputClasses embeddingDim hiddenDim : N) (device : DeviceDescriptor)
    (w : world) :
  let u := next_uid w in
  let E := MkParam u [embeddingDim; InferredDimension] Float
             GlorotUniformInitializer device "E" in
  let W := MkParam (1 + u) [hiddenDim; InferredDimension] Float
             GlorotUniformInitializer device "W" in
  let R := MkParam (2 + u) [hiddenDim; hiddenDim] Float
             GlorotUniformInitializer device "R" in
  let b := MkParam (3 + u) [hiddenDim] Float (ConstantInitializer f32_zero)
             device "b" in
  let Wl := MkParam (4 + u) [numOutputClasses; InferredDimension] Float
              GlorotUniformInitializer device "W" in
  let bl := MkParam (5 + u) [numOutputClasses] Float
              (ConstantInitializer f32_zero) device "b" in
  exists model,
    CreateModelFunction numOutputClasses embeddingDim hiddenDim device w
    = (Ok model, World (6 + u) (trace w))
    /\ evaluates (Nested_lookup model "[0]" "E") E
    /\ evaluates (Nested_Nested_lookup model "[1]" "step" "W") W
    /\ evaluates (Nested_Nested_lookup model "[1]" "step" "R") R
    /\ evaluates (Nested_Nested_lookup model "[1]" "step" "b") b
    /\ evaluates (Nested_lookup model "[2]" "W") Wl
    /\ evaluates (Nested_lookup model "[2]" "b") bl.
Proof.
  intros u E W R b Wl bl.
  eexists. split; [reflexivity|].
  repeat split; intros w'; reflexivity.
Qed.

(** X5: one invocation of the model built by [CreateModelFunction] enters
    each of its three layers exactly once, whatever the input: the
    embedding on [Combine({x})], the step on the delayed placeholder and the
    embedded input, the linear layer on [Sequence::Last] of the recurrence;
    one fresh placeholder is allocated. *)
Theorem CreateModelFunction_run
    (numOutputClasses embeddingDim hiddenDim : N) (device : DeviceDescriptor)
    (x : Var) (w w1 : world) :
  let u := next_uid w in
  let E := MkParam u [embeddingDim; InferredDimension] Float
             GlorotUniformInitializer device "E" in
  let W := MkParam (1 + u) [hiddenDim; InferredDimension] Float
             GlorotUniformInitializer device "W" in
  let R := MkParam (2 + u) [hiddenDim; hiddenDim] Float
             GlorotUniformInitializer device "R" in
  let b := MkParam (3 + u) [hiddenDim] Float (ConstantInitializer f32_zero)
             device "b" in
  let Wl := MkParam (4 + u) [numOutputClasses; InferredDimension] Float
              GlorotUniformInitializer device "W" in
  let bl := MkParam (5 + u) [numOutputClasses] Float
              (ConstantInitializer f32_zero) device "b" in
  let embedded := Times (Var_of_Parameter E) (Combine [x]) in
  let dh := PlaceholderVariable (next_uid w1) in
  let rec := ReLU (Plus (Plus (Times (Var_of_Parameter W) embedded)
                              (Times (Var_of_Parameter R) (PastValue dh)))
                        (Var_of_Parameter b)) in
  let last := CNTK_Sequence_Last (ReplacePlaceholders rec [(dh, rec)]) in
  exists model,
    CreateModelFunction numOutputClasses embeddingDim hiddenDim device w
    = (Ok model, World (6 + u) (trace w))
    /\ fn model x w1
       = (Ok (Plus (Times (Var_of_Parameter Wl) last) (Var_of_Parameter bl)),
          World (1 + next_uid w1)
            (trace w1 ++ [Enter "Embedding" [Combine [x]];
                          Enter "RNNStep" [PastValue dh; embedded];
                          Enter "Linear" [last]])).
Proof.
  intros u E W R b Wl bl embedded dh rec last.
  eexists. split; [reflexivity|].
  cbn [fn apply_each].
  cbv beta iota zeta delta [mbind Eng_bind mret Eng_ret tick fresh_uid
                              Sequence_Last Sequence_Recurrence ModelT_of].
  cbn [fn next_uid trace].
  rewrite <- !app_assoc. reflexivity.
Qed.

(** ** Loops over exact worlds *)

Lemma for_from_rule {S : Type} (I : nat -> S -> world -> Prop)
    (body : N -> S -> Eng S) (n : nat) :
  (forall k s w, k < n -> I k s w ->
     exists s' w', body (N.of_nat k) s w = (Ok s', w')
                   /\ I (Datatypes.S k) s' w') ->
  forall count k s w, k + count = n -> I k s w ->
    exists s' w', for_from (N.of_nat k) count body s w = (Ok s', w')
                  /\ I n s' w'.
Proof.
  intros Hbody. induction count as [|count IH]; intros k s w Hk HI.
  - exists s, w. split; [reflexivity|]. now replace n with k by lia.
  - destruct (Hbody k s w ltac:(lia) HI) as (s1 & w1 & Hs1 & HI1).
    destruct (IH (Datatypes.S k) s1 w1 ltac:(lia) HI1)
      as (s2 & w2 & Hs2 & HI2).
    exists s2, w2. split; [|exact HI2].
    cbn [for_from]. rewrite (bind_Ok _ _ _ _ _ Hs1).
    now rewrite <- Nat2N.inj_succ.
Qed.

Lemma for_loop_rule {S : Type} (I : nat -> S -> world -> Prop)
    (body : N -> S -> Eng S) (n : nat) (s : S) (w : world) :
  (forall k s w, k < n -> I k s w ->
     exists s' w', body (N.of_nat k) s w = (Ok s', w')
                   /\ I (Datatypes.S k) s' w') ->
  I 0 s w ->
  exists s' w', for_loop (N.of_nat n) body s w = (Ok s', w') /\ I n s' w'.
Proof.
  intros Hbody HI. unfold for_loop. rewrite Nat2N.id.
  apply (for_from_rule I body n Hbody n 0 s w); [lia | exact HI].
Qed.

(** ** Sequential *)

Lemma string_length_append (s t : string) :
  String.length (String.append s t) = String.length s + String.length t.
Proof. induction s as [|a s IH]; simpl; [reflexivity | now f_equal]. Qed.

Lemma append_inj_r (s1 s2 t : string) :
  String.append s1 t = String.append s2 t -> s1 = s2.
Proof.
  revert s2. induction s1 as [|a s1 IH]; intros [|b s2] Heq.
  - reflexivity.
  - apply (f_equal String.length) in Heq.
    rewrite !string_length_append in Heq. simpl in Heq. lia.
  - apply (f_equal String.length) in Heq.
    rewrite !string_length_append in Heq. simpl in Heq. lia.
  - cbn in Heq. injection Heq as -> Heq. f_equal. now apply IH.
Qed.

Lemma index_name_inj (i j : N) : index_name i = index_name j -> i = j.
Proof.
  unfold index_name. cbn [String.append]. intros Heq.
  injection Heq as Heq.
  change (String.append (pretty i) "]" = String.append (pretty j) "]") in Heq.
  apply append_inj_r in Heq.
  now apply (inj pretty) in Heq.
Qed.

(** The loop of [Sequential] stores the block pointer of the model at index
    [i] under "[i]", and nothing else. *)
Lemma Sequential_captured_keys (fns : list UnaryModel) (w : world) :
  exists captured,
    Sequential_captured fns w = (Ok captured, w)
    /\ (forall i f, fns !! i = Some f ->
          captured !! index_name (N.of_nat i) = Some (GetParameterBlock f))
    /\ (forall name,
          (forall i, i < length fns -> name <> index_name (N.of_nat i)) ->
          captured !! name = None).
Proof.
  unfold Sequential_captured.
  destruct (for_loop_rule
              (fun k (captured : gmap string (option ParameterBlock)) w' =>
                 w' = w
                 /\ (forall i f, i < k -> fns !! i = Some f ->
                       captured !! index_name (N.of_nat i)
                       = Some (GetParameterBlock f))
                 /\ (forall name,
                       (forall i, i < k -> name <> index_name (N.of_nat i)) ->
                       captured !! name = None))
              (fun i captured =>
                 f ← vec_get fns i;
                 mret (<[index_name i := GetParameterBlock f]> captured))
              (length fns) ∅ w)
    as (captured & w' & Hrun & -> & Hkeys & Hother).
  - intros k captured w' Hk (-> & Hkeys & Hother).
    destruct (lookup_lt_is_Some_2 fns k Hk) as [f Hf].
    exists (<[index_name (N.of_nat k) := GetParameterBlock f]> captured), w.
    split; [|split; [reflexivity|split]].
    + now rewrite (vec_get_lookup _ _ _ Hf).
    + intros i g Hi Hg. destruct (decide (i = k)) as [->|Hne].
      * rewrite lookup_insert_eq.
        pose proof (eq_trans (eq_sym Hf) Hg) as Hfg. now injection Hfg as ->.
      * rewrite lookup_insert_ne; [apply Hkeys; [lia | exact Hg]|].
        intros Heq. apply index_name_inj in Heq. lia.
    + intros name Hname. rewrite lookup_insert_ne.
      * apply Hother. intros i Hi. apply Hname. lia.
      * intros Heq. apply (Hname k); [lia | now symmetry].
  - split; [reflexivity|]. split; [intros i f Hi; lia|].
    intros name _. apply lookup_empty.
  - exists captured. split; [exact Hrun|]. split.
    + intros i f Hf. apply Hkeys; [|exact Hf]. now apply lookup_lt_Some in Hf.
    + exact Hother.
Qed.

Lemma apply_each_returns (fns : list UnaryModel) (gs : list (Var -> Var)) :
  Forall2 computes1 fns gs ->
  forall arg, returns (apply_each fns arg) (foldl (fun v g => g v) arg gs).
Proof.
  induction 1 as [|f g fns gs Hf Hrest IH]; intros arg; cbn [apply_each foldl].
  - apply returns_ret.
  - eapply returns_bind; [apply Hf | apply IH].
Qed.

(** X6: [Sequential(fns)] always builds its model, without touching the
    world, whatever the models of the list are and do.  The model has no
    parameter of its own; its nested map holds the block pointer of
    [fns[i]] under the key "[i]" for every index, and no other key.  A
    call runs the models of the list first to last, each on the result of
    the one before, starting from [Combine({x})]; when the models compute
    the functions [gs], it returns their composition applied to
    [Combine({x})]. *)
Theorem Sequential_composes (fns : list UnaryModel) (w : world) :
  exists model pb,
    Sequential fns w = (Ok model, w)
    /\ GetParameterBlock model = Some pb
    /\ m_parameters pb = ∅
    /\ (forall i f, fns !! i = Some f ->
          m_parentParameters pb !! index_name (N.of_nat i)
          = Some (GetParameterBlock f))
    /\ (forall name,
          (forall i, i < length fns -> name <> index_name (N.of_nat i)) ->
          m_parentParameters pb !! name = None)
    /\ (forall x w', fn model x w' = apply_each fns (Combine [x]) w')
    /\ (forall (gs : list (Var -> Var)) x,
          Forall2 computes1 fns gs ->
          returns (fn model x) (foldl (fun v g => g v) (Combine [x]) gs)).
Proof.
  destruct (Sequential_captured_keys fns w) as (captured & Hrun & Hkeys & Hother).
  eexists. eexists. split.
  { unfold Sequential. rewrite (bind_Ok _ _ _ _ _ Hrun).
    apply ModelT_nested_no_parameters. }
  cbn [GetParameterBlock fn m_parameters m_parentParameters].
  split; [reflexivity|]. split; [reflexivity|].
  split; [exact Hkeys|]. split; [exact Hother|].
  split; [reflexivity|].
  intros gs x Hcomp. now apply apply_each_returns.
Qed.

(** ** Batch::map over a concatenation, Batch::sum over a batch of sequences *)

Lemma bind_assoc_pt {A B C : Type} (m : Eng A) (f : A -> Eng B)
    (g : B -> Eng C) (w : world) :
  ((m ≫= f) ≫= g) w = (m ≫= fun a => f a ≫= g) w.
Proof.
  unfold mbind, Eng_bind. now destruct (m w) as [[a|e] w1].
Qed.

Lemma bind_ext_pt {A B : Type} (m : Eng A) (f g : A -> Eng B) (w : world) :
  (forall a w', f a w' = g a w') -> (m ≫= f) w = (m ≫= g) w.
Proof.
  intros Hfg. unfold mbind, Eng_bind.
  destruct (m w) as [[a|e] w1]; [apply Hfg | reflexivity].
Qed.

Lemma bind_cong_pt {A B : Type} (m m' : Eng A) (k : A -> Eng B) (w : world) :
  m w = m' w -> (m ≫= k) w = (m' ≫= k) w.
Proof. intros Hm. unfold mbind, Eng_bind. now rewrite Hm. Qed.

Lemma push_back_each_from (f : Var -> Eng Var) (batch : list Var) :
  forall res w,
    push_back_each f batch res w
    = (r ← push_back_each f batch []; mret (res ++ r)) w.
Proof.
  induction batch as [|x rest IH]; intros res w; cbn [push_back_each].
  - rewrite bind_ret. now rewrite app_nil_r.
  - rewrite bind_assoc_pt. apply bind_ext_pt. intros y w1.
    rewrite (IH (res ++ [y]) w1).
    rewrite (bind_cong_pt _ _ _ _ (IH ([] ++ [y]) w1)).
    rewrite bind_assoc_pt. apply bind_ext_pt. intros r w2.
    rewrite bind_ret. now rewrite <- app_assoc.
Qed.

(** X7: whatever the model does (change the world, fail), [Batch::map] on
    the concatenation of two batches is [Batch::map] on the first, then on
    the second, with the results concatenated: items are processed from
    left to right, and a failure in the first batch leaves the second
    untouched. *)
Theorem Batch_map_app (f : UnaryModel) (xs ys : list Var) (w : world) :
  Batch_map f (xs ++ ys) w
  = (r1 ← Batch_map f xs; r2 ← Batch_map f ys; mret (r1 ++ r2)) w.
Proof.
  unfold Batch_map.
  assert (Hgen : forall res w',
             push_back_each (fn f) (xs ++ ys) res w'
             = (r1 ← push_back_each (fn f) xs res;
                r2 ← push_back_each (fn f) ys [];
                mret (r1 ++ r2)) w').
  { induction xs as [|x rest IH]; intros res w'; cbn [app push_back_each].
    - rewrite bind_ret. apply push_back_each_from.
    - rewrite bind_assoc_pt. apply bind_ext_pt. intros y w1. apply IH. }
  apply Hgen.
Qed.

(** X8: the overload of [Batch::sum] on a batch of sequences is the sum of
    the items of all sequences in order: with [x] the first item of the
    first non-empty sequence, the result is the reshaped sum over the
    concatenation, in the shape of [x]. *)
Theorem Batch_sum_nested_flat (batch : list (list Var)) (x : Var)
    (rest : list Var) (w : world) :
  concat batch = x :: rest ->
  Batch_sum_nested batch w
  = (Ok (Reshape
           (ReduceSum
              (Splice (x :: rest)
                 (StaticAxis (to_int (N.of_nat (length (Shape x))))))
              (StaticAxis (to_int (N.of_nat (length (Shape x))))))
           (Shape x)), w)
  /\ Batch_sum_nested batch w = Batch_sum (concat batch) w.
Proof.
  intros Hflat. unfold Batch_sum_nested. rewrite allSummands_concat.
  split; [|reflexivity]. rewrite Hflat. apply Batch_sum_cons.
Qed.

(** ** ToVector and Index *)

Lemma indices_S (n : nat) : indices (S n) = indices n ++ [N.of_nat n].
Proof. unfold indices. rewrite seq_S, fmap_app. reflexivity. Qed.

Lemma vec_reserve_fits (max_size n : N) (w : world) :
  (n <= max_size)%N -> vec_reserve max_size n w = (Ok tt, w).
Proof.
  intros Hn. unfold vec_reserve.
  destruct (N.ltb_spec max_size n); [lia | reflexivity].
Qed.

Lemma vec_reserve_too_long (max_size n : N) (w : world) :
  (max_size < n)%N -> vec_reserve max_size n w = (Fail LengthError, w).
Proof.
  intros Hn. unfold vec_reserve.
  destruct (N.ltb_spec max_size n); [reflexivity | lia].
Qed.

(** X9: on a tensor whose last dimension is [n] and whose slices keep at
    least one axis: when [n] is at most the [max_size()] of the result
    vector, [ToVector] returns the [n] slices [Index(x, 0)], ...,
    [Index(x, n-1)] in order and leaves the world as it was; when [n] is
    larger (as for the last dimension [NDShape::InferredDimension]),
    [reserve] throws [std::length_error] before any slice is taken. *)
Theorem ToVector_slices (max_size : N) (x : Var) (n : N) :
  last (Shape x) = Some n ->
  (forall t, (t < n)%N -> Shape (Index_slice x t) <> []) ->
  ((n <= max_size)%N ->
   evaluates (ToVector max_size x) (slice_at x <$> indices (N.to_nat n))
   /\ length (slice_at x <$> indices (N.to_nat n)) = N.to_nat n)
  /\ ((max_size < n)%N ->
      forall w, ToVector max_size x w = (Fail LengthError, w)).
Proof.
  intros Hlen Hrank. split.
  - intros Hfits. split.
    + intros w. unfold ToVector.
      rewrite (bind_Ok _ _ _ _ _ (vec_back_last _ _ w Hlen)).
      rewrite (bind_Ok _ _ _ _ _ (vec_reserve_fits max_size n w Hfits)).
      rewrite <- (N2Nat.id n) at 1.
      destruct (for_loop_rule
                  (fun k res w' => w' = w /\ res = slice_at x <$> indices k)
                  (fun t res => xt ← Index x t; mret (res ++ [xt]))
                  (N.to_nat n) [] w)
        as (res & w' & Hrun & -> & ->).
      * intros k res w' Hk [-> ->].
        exists (slice_at x <$> indices (S k)), w.
        split; [|split; reflexivity].
        rewrite (bind_Ok _ _ _ _ _
                   (Index_returns x (N.of_nat k) w
                      (Hrank (N.of_nat k) ltac:(lia)))).
        rewrite indices_S, fmap_app. reflexivity.
      * split; reflexivity.
      * exact Hrun.
    + unfold indices. now rewrite !length_fmap, length_seq.
  - intros Hlong w. unfold ToVector.
    rewrite (bind_Ok _ _ _ _ _ (vec_back_last _ _ w Hlen)).
    unfold mbind, Eng_bind.
    now rewrite (vec_reserve_too_long max_size n w Hlong).
Qed.

(** A tensor of rank 0 has no last dimension to read. *)
Lemma ToVector_rank_0 (max_size : N) (x : Var) (w : world) :
  Shape x = [] -> ToVector max_size x w = (Fail Undefined, w).
Proof. intros Hx. unfold ToVector, vec_back. now rewrite Hx. Qed.

Lemma last_replicate_0 (n : nat) :
  n <> 0 -> last (replicate n 0%N) = Some 0%N.
Proof.
  intros Hn. destruct n as [|n]; [contradiction|].
  rewrite replicate_S_end. apply last_snoc.
Qed.

Lemma Index_view_unsliced (data : NDArrayView) (w : world) :
  last (View_Shape data) = Some 1%N ->
  Index_view data 0 w
  = (Ok (AsShape data (removelast (View_Shape data))), w).
Proof.
  intros Hlast. unfold Index_view.
  assert (Hne : length (View_Shape data) <> 0).
  { destruct (View_Shape data); [discriminate | simpl; lia]. }
  rewrite (bind_Ok _ _ _ _ _
             (vec_back_last _ _ w (last_replicate_0 _ Hne))).
  rewrite (bind_Ok _ _ _ _ _ (vec_back_last _ _ w Hlast)).
  cbn [N.eqb negb orb Pos.eqb].
  destruct (View_Shape data); [discriminate | reflexivity].
Qed.

(** X10: [Index] on an array view.  A view of rank 0 is undefined.  At
    index 0 of a view whose last extent is 1 nothing is sliced: the view is
    only reshaped, its last axis dropped.  In every other case the view is
    sliced, at offset [i] and extent 1 on the last axis and in full on the
    others, and the slice is reshaped without its last axis (undefined if
    the slice has rank 0). *)
Theorem Index_view_cases :
  (forall data i w,
      View_Shape data = [] -> Index_view data i w = (Fail Undefined, w))
  /\ (forall data w,
         last (View_Shape data) = Some 1%N ->
         Index_view data 0 w
         = (Ok (AsShape data (removelast (View_Shape data))), w))
  /\ (forall data i last_extent w,
         last (View_Shape data) = Some last_extent ->
         i <> 0%N \/ last_extent <> 1%N ->
         let sliced :=
           SliceView data
             (set_back (replicate (length (View_Shape data)) 0%N) i)
             (set_back (View_Shape data) 1%N) true in
         Index_view data i w
         = match View_Shape sliced with
           | [] => (Fail Undefined, w)
           | _ :: _ =>
               (Ok (AsShape sliced (removelast (View_Shape sliced))), w)
           end).
Proof.
  split; [|split].
  - intros data i w Hdims. unfold Index_view. rewrite Hdims. reflexivity.
  - intros data w Hlast. now apply Index_view_unsliced.
  - intros data i last_extent w Hlast Hcase sliced. unfold Index_view.
    assert (Hne : length (View_Shape data) <> 0).
    { destruct (View_Shape data); [discriminate | simpl; lia]. }
    rewrite (bind_Ok _ _ _ _ _
               (vec_back_last _ _ w (last_replicate_0 _ Hne))).
    rewrite (bind_Ok _ _ _ _ _ (vec_back_last _ _ w Hlast)).
    assert (Hcond : negb (0 =? i)%N || negb (last_extent =? 1)%N = true).
    { destruct Hcase as [Hi|Hl].
      - destruct (N.eqb_spec 0 i); [congruence | reflexivity].
      - destruct (N.eqb_spec last_extent 1); [congruence|].
        apply orb_true_r. }
    rewrite Hcond. fold sliced.
    now destruct (View_Shape sliced).
Qed.

(** ** FromCNTKMB on any number of streams *)

Lemma for_from_split {S : Type} (body : N -> S -> Eng S) (a b : nat) :
  forall t s w,
    for_from t (a + b) body s w
    = (for_from t a body s ≫= for_from (t + N.of_nat a) b body) w.
Proof.
  induction a as [|a IH]; intros t s w.
  - cbn [Nat.add for_from N.of_nat]. rewrite bind_ret. now rewrite N.add_0_r.
  - cbn [Nat.add for_from]. rewrite bind_assoc_pt.
    apply bind_ext_pt. intros s1 w1. rewrite IH.
    now replace (N.succ t + N.of_nat a)%N
      with (t + N.of_nat (Datatypes.S a))%N by lia.
Qed.

(** The inner loop on the first [k] sequences of a stream. *)
Lemma FromCNTKMB_item_prefix (hasAxis : bool) (sequences : list NDArrayView)
    (k : nat) (arg : list Var) (w : world) :
  k <= length sequences ->
  length arg = length sequences ->
  Forall (sample_axis_ok hasAxis) (take k sequences) ->
  exists arg',
    for_from 0%N k (FromCNTKMB_item hasAxis sequences) arg w = (Ok arg', w)
    /\ length arg' = length sequences
    /\ take k arg' = as_constant hasAxis <$> take k sequences.
Proof.
  intros Hk Hlen Hok.
  destruct (for_from_rule
              (fun j arg' w' =>
                 w' = w /\ length arg' = length sequences
                 /\ take j arg' = as_constant hasAxis <$> take j sequences)
              (FromCNTKMB_item hasAxis sequences) k)
    with (count := k) (k := 0) (s := arg) (w := w)
    as (arg' & w' & Hrun & -> & Hlen' & Htake).
  - intros j arg' w' Hj (-> & Hlen' & Htake).
    destruct (lookup_lt_is_Some_2 sequences j ltac:(lia)) as [data Hdata].
    exists (<[j := as_constant hasAxis data]> arg'), w.
    split; [|split; [reflexivity|split]].
    + unfold FromCNTKMB_item. rewrite (vec_get_lookup _ _ _ Hdata).
      rewrite bind_ret.
      assert (Hdata_ok : sample_axis_ok hasAxis data).
      { rewrite Forall_forall in Hok. apply Hok.
        apply list_elem_of_lookup. exists j.
        rewrite lookup_take_lt by lia. exact Hdata. }
      destruct hasAxis; cbn [negb as_constant].
      * rewrite bind_ret. now rewrite vec_set_insert by lia.
      * destruct Hdata_ok as [Habs|Hlast]; [discriminate|].
        rewrite bind_assoc_pt.
        rewrite (bind_Ok _ _ _ _ _ (vec_back_last _ _ w Hlast)).
        cbn [N.eqb Pos.eqb]. rewrite bind_assoc_pt.
        rewrite (bind_Ok _ _ _ _ _ (assert_true w)).
        rewrite (bind_Ok _ _ _ _ _ (Index_view_unsliced data w Hlast)).
        now rewrite vec_set_insert by lia.
    + now rewrite length_insert.
    + rewrite (take_S_r _ _ _ Hdata), fmap_app. cbn [fmap list_fmap].
      rewrite <- Htake.
      rewrite (take_S_r (<[j:=as_constant hasAxis data]> arg') j
                 (as_constant hasAxis data))
        by (apply list_lookup_insert_eq; lia).
      now rewrite take_insert_ge by lia.
  - lia.
  - split; [reflexivity|]. split; [exact Hlen|]. reflexivity.
  - exists arg'. split; [exact Hrun|]. split; [exact Hlen'|exact Htake].
Qed.

Lemma FromCNTKMB_item_all (hasAxis : bool) (sequences : list NDArrayView) :
  Forall (sample_axis_ok hasAxis) sequences ->
  evaluates
    (for_loop (N.of_nat (length sequences))
       (FromCNTKMB_item hasAxis sequences)
       (replicate (length sequences) Var_default))
    (as_constant hasAxis <$> sequences).
Proof.
  intros Hok w. unfold for_loop. rewrite Nat2N.id.
  destruct (FromCNTKMB_item_prefix hasAxis sequences (length sequences)
              (replicate (length sequences) Var_default) w)
    as (arg' & Hrun & Hlen & Htake).
  - lia.
  - apply length_replicate.
  - now rewrite firstn_all.
  - rewrite Hrun. f_equal. f_equal.
    rewrite <- Hlen, !firstn_all in Htake. rewrite Htake.
    now rewrite Hlen, firstn_all.
Qed.

(** The outer body on a stream whose count passes the check. *)
Lemma FromCNTKMB_body_consistent (inputs : list Value) (variables : list Var)
    (device : DeviceDescriptor) (i : nat) (input : Value) (variable : Var)
    (res : list (list Var)) (numSeq : N) :
  inputs !! i = Some input -> variables !! i = Some variable ->
  res !! i = Some [] ->
  numSeq = 0%N
  \/ numSeq = N.of_nat (length (UnpackVariableValue input variable device)) ->
  Forall (sample_axis_ok (has_sequence_axis variable))
    (UnpackVariableValue input variable device) ->
  evaluates (FromCNTKMB_body inputs variables device (N.of_nat i)
               (res, numSeq))
    (<[i := stream_constants device input variable]> res,
     N.of_nat (length (UnpackVariableValue input variable device))).
Proof.
  intros Hin Hvar Hres HnumSeq Hok w. unfold FromCNTKMB_body.
  rewrite (vec_get_lookup _ _ _ Hin), (vec_get_lookup _ _ _ Hvar),
    (vec_get_lookup _ _ _ Hres).
  rewrite !bind_ret. cbv zeta.
  assert (Hcheck :
            (if (numSeq =? 0)%N
             then mret (N.of_nat
                          (length (UnpackVariableValue input variable device)))
             else if negb (numSeq =? N.of_nat
                             (length (UnpackVariableValue input variable
                                        device)))%N
                  then throw_LogicError "inconsistent MB size"
                  else mret numSeq)
            = (mret (N.of_nat
                       (length (UnpackVariableValue input variable device)))
               : Eng N)).
  { destruct (N.eqb_spec numSeq 0) as [_|Hne]; [reflexivity|].
    destruct HnumSeq as [->| ->]; [contradiction|].
    now rewrite N.eqb_refl. }
  rewrite Hcheck, bind_ret, bind_ret, resize_nil.
  fold (has_sequence_axis variable).
  rewrite (bind_Ok _ _ _ _ _ (FromCNTKMB_item_all _ _ Hok w)).
  rewrite vec_set_insert by (now apply lookup_lt_Some in Hres).
  reflexivity.
Qed.

(** The outer loop on the first [j] streams, all of [n] sequences. *)
Lemma FromCNTKMB_prefix (inputs : list Value) (variables : list Var)
    (device : DeviceDescriptor) (n j : nat) (w : world) :
  j <= length inputs -> j <= length variables ->
  (forall i input variable,
      i < j -> inputs !! i = Some input -> variables !! i = Some variable ->
      length (UnpackVariableValue input variable device) = n
      /\ Forall (sample_axis_ok (has_sequence_axis variable))
           (UnpackVariableValue input variable device)) ->
  exists res numSeq,
    for_from 0%N j (FromCNTKMB_body inputs variables device)
      (replicate (length inputs) [], 0%N) w
    = (Ok (res, numSeq), w)
    /\ length res = length inputs
    /\ (forall i input variable,
          i < j -> inputs !! i = Some input -> variables !! i = Some variable ->
          res !! i = Some (stream_constants device input variable))
    /\ (forall i, j <= i -> i < length inputs -> res !! i = Some [])
    /\ (numSeq = 0%N \/ numSeq = N.of_nat n)
    /\ (0 < j -> numSeq = N.of_nat n).
Proof.
  intros Hj Hjv Hstreams.
  destruct (for_from_rule
              (fun k (st : list (list Var) * N) w' =>
                 w' = w
                 /\ length (fst st) = length inputs
                 /\ (forall i input variable,
                       i < k -> inputs !! i = Some input ->
                       variables !! i = Some variable ->
                       fst st !! i
                       = Some (stream_constants device input variable))
                 /\ (forall i, k <= i -> i < length inputs ->
                       fst st !! i = Some [])
                 /\ (snd st = 0%N \/ snd st = N.of_nat n)
                 /\ (0 < k -> snd st = N.of_nat n))
              (FromCNTKMB_body inputs variables device) j)
    with (count := j) (k := 0)
         (s := (replicate (length inputs) (@nil Var), 0%N)) (w := w)
    as ([res numSeq] & w' & Hrun & -> & Hlen & Hdone & Htodo & Hnum & Hset).
  - intros k [res numSeq] w' Hk (-> & Hlen & Hdone & Htodo & Hnum & Hset).
    cbn [fst snd] in *.
    destruct (lookup_lt_is_Some_2 inputs k ltac:(lia)) as [input Hin].
    destruct (lookup_lt_is_Some_2 variables k ltac:(lia)) as [variable Hvar].
    destruct (Hstreams k input variable Hk Hin Hvar) as [Hcount Hok].
    eexists. exists w. split.
    { apply FromCNTKMB_body_consistent;
        [exact Hin | exact Hvar | apply Htodo; lia | | exact Hok].
      rewrite Hcount. exact Hnum. }
    cbn [fst snd]. split; [reflexivity|]. split; [now rewrite length_insert|].
    split; [|split; [|split]].
    + intros i input' variable' Hi Hin' Hvar'.
      destruct (decide (i = k)) as [->|Hne].
      * rewrite list_lookup_insert_eq by lia.
        pose proof (eq_trans (eq_sym Hin) Hin') as E1.
        pose proof (eq_trans (eq_sym Hvar) Hvar') as E2.
        injection E1 as ->. now injection E2 as ->.
      * rewrite list_lookup_insert_ne by congruence.
        apply Hdone; [lia | exact Hin' | exact Hvar'].
    + intros i Hi Hi'. rewrite list_lookup_insert_ne by lia.
      apply Htodo; lia.
    + right. now rewrite Hcount.
    + intros _. now rewrite Hcount.
  - lia.
  - cbn [fst snd]. split; [reflexivity|].
    split; [apply length_replicate|].
    split; [intros i input variable Hi; lia|].
    split; [intros i _ Hi; now apply lookup_replicate_2|].
    split; [now left | intros Hpos; lia].
  - exists res, numSeq. cbn [fst snd] in *.
    split; [exact Hrun|]. auto.
Qed.

(** X11: when there is a variable for every input and all streams unpack
    to the same number [n] of sequences (each sequence of a stream without
    sequence axis having a last extent of 1), [FromCNTKMB] returns one list
    per stream, each of length [n]: list [i] holds the constants of the
    sequences of stream [i] in order, made of the unpacked views on a stream
    with a sequence axis and of the views without their last axis
    otherwise. *)
Theorem FromCNTKMB_consistent (inputs : list Value) (variables : list Var)
    (device : DeviceDescriptor) (n : nat) (w : world) :
  length inputs <= length variables ->
  (forall i input variable,
      inputs !! i = Some input -> variables !! i = Some variable ->
      length (UnpackVariableValue input variable device) = n
      /\ Forall (sample_axis_ok (has_sequence_axis variable))
           (UnpackVariableValue input variable device)) ->
  exists res,
    FromCNTKMB inputs variables device w = (Ok res, w)
    /\ length res = length inputs
    /\ (forall i input variable,
          inputs !! i = Some input -> variables !! i = Some variable ->
          res !! i = Some (stream_constants device input variable))
    /\ (forall i l, res !! i = Some l -> length l = n).
Proof.
  intros Hvars Hstreams.
  destruct (FromCNTKMB_prefix inputs variables device n (length inputs) w)
    as (res & numSeq & Hrun & Hlen & Hdone & _).
  - lia.
  - exact Hvars.
  - intros i input variable _. apply Hstreams.
  - exists res. split; [|split; [exact Hlen|split]].
    + unfold FromCNTKMB, for_loop. rewrite Nat2N.id.
      now rewrite (bind_Ok _ _ _ _ _ Hrun).
    + intros i input variable Hin Hvar.
      apply Hdone; [now apply lookup_lt_Some in Hin | exact Hin | exact Hvar].
    + intros i l Hl.
      pose proof (lookup_lt_Some _ _ _ Hl) as Hi. rewrite Hlen in Hi.
      destruct (lookup_lt_is_Some_2 inputs i Hi) as [input Hin].
      destruct (lookup_lt_is_Some_2 variables i ltac:(lia)) as [variable Hvar].
      rewrite (Hdone i input variable Hi Hin Hvar) in Hl.
      injection Hl as <-. unfold stream_constants. rewrite length_fmap.
      apply (Hstreams i input variable Hin Hvar).
Qed.

(** X12: after one or more streams of the same number [n > 0] of
    sequences, a stream of another number of sequences makes [FromCNTKMB]
    throw "inconsistent MB size", whatever streams follow it. *)
Theorem FromCNTKMB_mismatch (inputs : list Value) (variables : list Var)
    (device : DeviceDescriptor) (n j : nat) (input : Value) (variable : Var)
    (w : world) :
  0 < j -> n <> 0 ->
  inputs !! j = Some input -> variables !! j = Some variable ->
  (forall i input' variable',
      i < j -> inputs !! i = Some input' -> variables !! i = Some variable' ->
      length (UnpackVariableValue input' variable' device) = n
      /\ Forall (sample_axis_ok (has_sequence_axis variable'))
           (UnpackVariableValue input' variable' device)) ->
  length (UnpackVariableValue input variable device) <> n ->
  FromCNTKMB inputs variables device w
  = (Fail (LogicError "inconsistent MB size"), w).
Proof.
  intros Hj Hn Hin Hvar Hstreams Hcount.
  pose proof (lookup_lt_Some _ _ _ Hin) as Hji.
  pose proof (lookup_lt_Some _ _ _ Hvar) as Hjv.
  destruct (FromCNTKMB_prefix inputs variables device n j w
              ltac:(lia) ltac:(lia) Hstreams)
    as (res & numSeq & Hrun & _ & _ & _ & _ & Hset).
  unfold FromCNTKMB, for_loop. rewrite Nat2N.id.
  replace (length inputs) with (j + S (length inputs - S j)) at 1 by lia.
  unfold mbind at 1. unfold Eng_bind at 1.
  rewrite for_from_split, (bind_Ok _ _ _ _ _ Hrun).
  cbn [for_from]. rewrite N.add_0_l.
  unfold mbind at 1. unfold Eng_bind at 1.
  unfold FromCNTKMB_body.
  rewrite (vec_get_lookup _ _ _ Hin), (vec_get_lookup _ _ _ Hvar).
  rewrite !bind_ret. cbv zeta. rewrite (Hset Hj).
  rewrite of_nat_eqb_0, size_eqb_of_nat.
  rewrite !bool_decide_eq_false_2 by congruence.
  reflexivity.
Qed.

(** X13: on a stream without sequence axis, [FromCNTKMB] stops at the
    failed assertion at the first sequence whose last extent is not 1, when
    the streams before it are consistent and the stream's own count passes
    the check. *)
Theorem FromCNTKMB_sample_axis (inputs : list Value) (variables : list Var)
    (device : DeviceDescriptor) (n j : nat) (input : Value) (variable : Var)
    (pre post : list NDArrayView) (data : NDArrayView) (extent : N)
    (w : world) :
  inputs !! j = Some input -> variables !! j = Some variable ->
  (forall i input' variable',
      i < j -> inputs !! i = Some input' -> variables !! i = Some variable' ->
      length (UnpackVariableValue input' variable' device) = n
      /\ Forall (sample_axis_ok (has_sequence_axis variable'))
           (UnpackVariableValue input' variable' device)) ->
  has_sequence_axis variable = false ->
  UnpackVariableValue input variable device = pre ++ data :: post ->
  length (pre ++ data :: post) = n ->
  Forall (fun d => last (View_Shape d) = Some 1%N) pre ->
  last (View_Shape data) = Some extent -> extent <> 1%N ->
  FromCNTKMB inputs variables device w = (Fail AssertFailed, w).
Proof.
  intros Hin Hvar Hstreams Haxis Hunpack Hcount Hpre Hlast Hextent.
  pose proof (lookup_lt_Some _ _ _ Hin) as Hji.
  pose proof (lookup_lt_Some _ _ _ Hvar) as Hjv.
  destruct (FromCNTKMB_prefix inputs variables device n j w
              ltac:(lia) ltac:(lia) Hstreams)
    as (res & numSeq & Hrun & _ & _ & Htodo & Hnum & _).
  unfold FromCNTKMB, for_loop. rewrite Nat2N.id.
  replace (length inputs) with (j + S (length inputs - S j)) at 1 by lia.
  unfold mbind at 1. unfold Eng_bind at 1.
  rewrite for_from_split, (bind_Ok _ _ _ _ _ Hrun).
  cbn [for_from]. rewrite N.add_0_l.
  unfold mbind at 1. unfold Eng_bind at 1.
  unfold FromCNTKMB_body.
  rewrite (vec_get_lookup _ _ _ Hin), (vec_get_lookup _ _ _ Hvar),
    (vec_get_lookup _ _ _ (Htodo j ltac:(lia) Hji)).
  rewrite !bind_ret. cbv zeta. fold (has_sequence_axis variable).
  rewrite Haxis, Hunpack, Hcount.
  assert (Hcheck :
            (if (numSeq =? 0)%N then mret (N.of_nat n)
             else if negb (numSeq =? N.of_nat n)%N
                  then throw_LogicError "inconsistent MB size"
                  else mret numSeq)
            = (mret (N.of_nat n) : Eng N)).
  { destruct (N.eqb_spec numSeq 0) as [_|Hne]; [reflexivity|].
    destruct Hnum as [->| ->]; [contradiction|].
    now rewrite N.eqb_refl. }
  rewrite Hcheck, bind_ret, bind_ret, resize_nil.
  destruct (FromCNTKMB_item_prefix false (pre ++ data :: post) (length pre)
              (replicate n Var_default) w)
    as (arg & Hinner & Hlen & _).
  { rewrite length_app. lia. }
  { rewrite length_replicate. now symmetry. }
  { rewrite take_app_length. eapply Forall_impl; [exact Hpre|].
    intros d Hd. now right. }
  unfold for_loop. rewrite Nat2N.id.
  remember (replicate n Var_default) as arg0 eqn:Harg0.
  assert (Hn : n = length pre + S (length post))
    by (rewrite <- Hcount, length_app; reflexivity).
  rewrite Hn.
  unfold mbind at 1. unfold Eng_bind at 1.
  rewrite for_from_split, (bind_Ok _ _ _ _ _ Hinner).
  cbn [for_from]. rewrite N.add_0_l.
  unfold mbind at 1. unfold Eng_bind at 1.
  unfold FromCNTKMB_item at 1.
  rewrite (vec_get_lookup (pre ++ data :: post) (length pre) data)
    by (now rewrite list_lookup_middle).
  rewrite bind_ret. cbn [negb].
  rewrite bind_assoc_pt.
  rewrite (bind_Ok _ _ _ _ _ (vec_back_last _ _ w Hlast)).
  unfold mbind, Eng_bind, assert_.
  destruct (N.eqb_spec extent 1) as [Heq|_]; [contradiction | reflexivity].
Qed.

(** ** The unrolled classifier on any number of time steps *)

Lemma Index_slice_returns (x : Var) (t : N) :
  Shape (Index_slice x t) <> [] -> returns (Index x t) (slice_at x t).
Proof. intros Hrank w. now rewrite (Index_returns x t w Hrank). Qed.

Lemma unrolled_state_S (ge : Var -> Var) (gs : Var -> Var -> Var)
    (zero x : Var) (k : nat) :
  unrolled_state ge gs zero x (S k)
  = gs (unrolled_state ge gs zero x k) (ge (slice_at x (N.of_nat k))).
Proof. unfold unrolled_state. rewrite indices_S. now rewrite foldl_app. Qed.

(** X14: on a tensor of [n] time steps whose slices keep at least one axis,
    the closure of the unrolled classifier returns
    [linear (state_n)], where [state_0 = zero] and
    [state_(t+1) = step (state_t, embed (Index (x, t)))], for sub-models
    that compute [embed], [step] and [linear]; for [n = 0] this is
    [linear (zero)]. *)
Theorem CreateModelFunctionUnrolled_fn_steps (embed : UnaryBroadcastingModel)
    (step : BinaryModel) (linear : UnaryBroadcastingModel)
    (ge : Var -> Var) (gs : Var -> Var -> Var) (gl : Var -> Var)
    (zero x : Var) (n : N) :
  computes1 embed ge -> computes2 step gs -> computes1 linear gl ->
  last (Shape x) = Some n ->
  (forall t, (t < n)%N -> Shape (Index_slice x t) <> []) ->
  returns (CreateModelFunctionUnrolled_fn embed step linear zero x)
    (gl (unrolled_state ge gs zero x (N.to_nat n))).
Proof.
  intros Hembed Hstep Hlinear Hlen Hrank.
  unfold CreateModelFunctionUnrolled_fn.
  eapply returns_bind.
  { intros w. now rewrite (vec_back_last _ _ w Hlen). }
  rewrite <- (N2Nat.id n) at 1.
  destruct (for_loop_invariant
              (fun k state => state = unrolled_state ge gs zero x k)
              (fun t state =>
                 xt ← Index x t; xt' ← Broadcast_item embed xt;
                 fn step state xt')
              (N.to_nat n) zero)
    as (state & Hstate & ->).
  - intros k state Hk ->.
    exists (gs (unrolled_state ge gs zero x k) (ge (slice_at x (N.of_nat k)))).
    split; [|symmetry; apply unrolled_state_S].
    eapply returns_bind; [apply Index_slice_returns, Hrank; lia|].
    eapply returns_bind; [apply Hembed | apply Hstep].
  - reflexivity.
  - eapply returns_bind; [exact Hstate | apply Hlinear].
Qed.

Lemma concat_replicate_S_end {A : Type} (l : list A) (k : nat) :
  concat (replicate (S k) l) = concat (replicate k l) ++ l.
Proof.
  rewrite replicate_S_end, concat_app. cbn [concat]. now rewrite app_nil_r.
Qed.

(** With layers that record their entries, the trace of one call. *)
Lemma CreateModelFunctionUnrolled_fn_trace (embed : UnaryBroadcastingModel)
    (step : BinaryModel) (linear : UnaryBroadcastingModel)
    (ge : Var -> Var) (gs : Var -> Var -> Var) (gl : Var -> Var)
    (zero x : Var) (n : N) (w : world) :
  enters1 "Embedding" embed ge -> enters2 "RNNStep" step gs ->
  enters1 "Linear" linear gl ->
  last (Shape x) = Some n ->
  (forall t, (t < n)%N -> Shape (Index_slice x t) <> []) ->
  exists events,
    CreateModelFunctionUnrolled_fn embed step linear zero x w
    = (Ok (gl (unrolled_state ge gs zero x (N.to_nat n))),
       World (next_uid w) (trace w ++ events))
    /\ layer <$> events
       = concat (replicate (N.to_nat n) ["Embedding"; "RNNStep"])
         ++ ["Linear"].
Proof.
  intros Hembed Hstep Hlinear Hlen Hrank.
  destruct (for_loop_rule
              (fun k state w' =>
                 state = unrolled_state ge gs zero x k
                 /\ next_uid w' = next_uid w
                 /\ exists events,
                      trace w' = trace w ++ events
                      /\ layer <$> events
                         = concat (replicate k ["Embedding"; "RNNStep"]))
              (fun t state =>
                 xt ← Index x t; xt' ← Broadcast_item embed xt;
                 fn step state xt')
              (N.to_nat n) zero w)
    as (state & w' & Hrun & -> & Huid & events & Htrace & Hlayers).
  - intros k state w' Hk (-> & Huid & events & Htrace & Hlayers).
    eexists. eexists. split.
    { rewrite (bind_Ok _ _ _ _ _
                 (Index_returns x (N.of_nat k) w'
                    (Hrank (N.of_nat k) ltac:(lia)))).
      unfold Broadcast_item.
      rewrite (bind_Ok _ _ _ _ _ (Hembed _ w')). apply Hstep. }
    cbn [next_uid trace]. split; [symmetry; apply unrolled_state_S|].
    split; [exact Huid|].
    exists (events ++ [Enter "Embedding" [slice_at x (N.of_nat k)];
                       Enter "RNNStep"
                         [unrolled_state ge gs zero x k;
                          ge (slice_at x (N.of_nat k))]]).
    split.
    + rewrite Htrace, <- !app_assoc. reflexivity.
    + rewrite fmap_app, Hlayers, concat_replicate_S_end. reflexivity.
  - split; [reflexivity|]. split; [reflexivity|].
    exists []. split; [now rewrite app_nil_r | reflexivity].
  - rewrite N2Nat.id in Hrun.
    exists (events
            ++ [Enter "Linear" [unrolled_state ge gs zero x (N.to_nat n)]]).
    split; [|now rewrite fmap_app, Hlayers].
    unfold CreateModelFunctionUnrolled_fn.
    rewrite (bind_Ok _ _ _ _ _ (vec_back_last _ _ w Hlen)).
    rewrite (bind_Ok _ _ _ _ _ Hrun). unfold Broadcast_item.
    rewrite Hlinear, Huid, Htrace. now rewrite <- app_assoc.
Qed.

(** X15: one call of the model built by [CreateModelFunctionUnrolled] on a
    tensor of [n] time steps enters the embedding and the step [n] times
    each, alternately, and then the linear layer once: [2n + 1] entries in
    all, and no new identity is allocated. *)
Theorem CreateModelFunctionUnrolled_calls
    (numOutputClasses embeddingDim hiddenDim : N) (device : DeviceDescriptor)
    (x : Var) (n : N) (w w1 : world) :
  last (Shape x) = Some n ->
  (forall t, (t < n)%N -> Shape (Index_slice x t) <> []) ->
  exists model y events,
    CreateModelFunctionUnrolled numOutputClasses embeddingDim hiddenDim
      device w
    = (Ok model, World (6 + next_uid w) (trace w))
    /\ fn model x w1 = (Ok y, World (next_uid w1) (trace w1 ++ events))
    /\ layer <$> events
       = concat (replicate (N.to_nat n) ["Embedding"; "RNNStep"])
         ++ ["Linear"]
    /\ length events = 2 * N.to_nat n + 1.
Proof.
  intros Hlen Hrank.
  eexists. 
  edestruct (CreateModelFunctionUnrolled_fn_trace) as (events & Hrun & Hlayers);
    [| | | exact Hlen | exact Hrank |].
  4: { eexists. exists events. split; [reflexivity|].
       cbn [fn]. split; [exact Hrun|]. split; [exact Hlayers|].
       apply (f_equal length) in Hlayers.
       rewrite length_fmap, length_app in Hlayers. rewrite Hlayers.
       cbn [length]. f_equal.
       clear. induction (N.to_nat n) as [|k IH]; [reflexivity|].
       cbn [replicate concat]. rewrite length_app, IH. cbn [length]. lia. }
  - intros v w'. reflexivity.
  - intros u v w'. reflexivity.
  - intros v w'. reflexivity.
Qed.

(** ** More on Recurrence, and BiRecurrence *)

Lemma state_after_last (g : Var -> Var -> Var) (s0 : Var) (l : list Var) :
  l <> [] -> state_after g s0 l (length l - 1) = foldl g s0 l.
Proof.
  intros Hl. unfold state_after.
  replace (S (length l - 1)) with (length l)
    by (destruct l; [congruence | simpl; lia]).
  now rewrite firstn_all.
Qed.

(** X16: the recurrence that goes backwards is the mirror image of the
    forward recurrence on the reversed sequence. *)
Theorem Recurrence_backward_mirror (step : BinaryModel)
    (g : Var -> Var -> Var) (s0 : Var) (seq : list Var) :
  computes2 step g ->
  exists rb rf,
    returns (fn (Recurrence step s0 true) seq) rb
    /\ returns (fn (Recurrence step s0 false) (reverse seq)) rf
    /\ rb = reverse rf.
Proof.
  intros Hstep.
  destruct (Recurrence_backward step g s0 seq Hstep)
    as (rb & Hrb & Hlenb & Hslotsb).
  destruct (Recurrence_forward step g s0 (reverse seq) Hstep)
    as (rf & Hrf & Hlenf & Hslotsf).
  rewrite length_reverse in Hlenf, Hslotsf.
  exists rb, rf. split; [exact Hrb|]. split; [exact Hrf|].
  apply list_eq. intros i.
  destruct (decide (i < length seq)) as [Hi|Hi].
  - rewrite reverse_lookup by lia. rewrite Hlenf.
    rewrite Hslotsf by lia.
    replace i with (length seq - 1 - (length seq - S i)) at 1 by lia.
    apply Hslotsb. lia.
  - rewrite (lookup_ge_None_2 rb) by lia.
    now rewrite (lookup_ge_None_2 (reverse rf))
      by (rewrite length_reverse; lia).
Qed.

(** X17: on a sequence that is not empty, the last element of the forward
    recurrence is the left fold of the step over the sequence from the
    initial state, and the first element of the backward recurrence is the
    left fold over the reversed sequence. *)
Theorem Recurrence_final_state (step : BinaryModel) (g : Var -> Var -> Var)
    (s0 : Var) (seq : list Var) :
  computes2 step g -> seq <> [] ->
  exists rf rb,
    returns (fn (Recurrence step s0 false) seq) rf
    /\ returns (fn (Recurrence step s0 true) seq) rb
    /\ last rf = Some (foldl g s0 seq)
    /\ head rb = Some (foldl g s0 (reverse seq)).
Proof.
  intros Hstep Hseq.
  assert (Hpos : 0 < length seq) by (destruct seq; [congruence | simpl; lia]).
  destruct (Recurrence_forward step g s0 seq Hstep)
    as (rf & Hrf & Hlenf & Hslotsf).
  destruct (Recurrence_backward step g s0 seq Hstep)
    as (rb & Hrb & Hlenb & Hslotsb).
  exists rf, rb. split; [exact Hrf|]. split; [exact Hrb|]. split.
  - rewrite last_lookup, Hlenf.
    replace (pred (length seq)) with (length seq - 1) by lia.
    rewrite Hslotsf by lia. now rewrite state_after_last.
  - rewrite head_lookup.
    replace 0 with (length seq - 1 - (length seq - 1)) by lia.
    rewrite Hslotsb by lia.
    rewrite <- (length_reverse seq) at 1.
    rewrite state_after_last; [reflexivity|].
    intros Hrev. apply (f_equal length) in Hrev.
    rewrite length_reverse in Hrev. simpl in Hrev. lia.
Qed.

(** X18: the forward recurrence is causal: on a sequence extended by more
    items it returns the results it returns on the sequence itself,
    followed by as many more. *)
Theorem Recurrence_forward_prefix (step : BinaryModel)
    (g : Var -> Var -> Var) (s0 : Var) (seq more : list Var) :
  computes2 step g ->
  exists r r',
    returns (fn (Recurrence step s0 false) seq) r
    /\ returns (fn (Recurrence step s0 false) (seq ++ more)) r'
    /\ take (length seq) r' = r
    /\ length r' = length seq + length more.
Proof.
  intros Hstep.
  destruct (Recurrence_forward step g s0 seq Hstep)
    as (r & Hr & Hlen & Hslots).
  destruct (Recurrence_forward step g s0 (seq ++ more) Hstep)
    as (r' & Hr' & Hlen' & Hslots').
  rewrite length_app in Hlen', Hslots'.
  exists r, r'. split; [exact Hr|]. split; [exact Hr'|].
  split; [|exact Hlen'].
  apply list_eq. intros i.
  destruct (decide (i < length seq)) as [Hi|Hi].
  - rewrite lookup_take_lt by lia.
    rewrite Hslots' by lia. rewrite Hslots by lia.
    unfold state_after. now rewrite take_app_le by lia.
  - rewrite lookup_take_ge by lia.
    now rewrite (lookup_ge_None_2 r) by lia.
Qed.

(** X19: [BiRecurrence] returns a sequence of the length of its input
    whose element [j] is the splice, along axis 0, of element [j] of the
    forward recurrence over the first step model and element [j] of the
    backward recurrence over the second, both from the same initial
    state. *)
Theorem BiRecurrence_slots (stepFwd stepBwd : BinaryModel)
    (gf gb : Var -> Var -> Var) (s0 : Var) (seq : list Var) :
  computes2 stepFwd gf -> computes2 stepBwd gb ->
  exists res,
    returns (fn (BiRecurrence stepFwd stepBwd s0) seq) res
    /\ length res = length seq
    /\ forall j, j < length seq ->
         res !! j
         = Some (Splice [state_after gf s0 seq j;
                         state_after gb s0 (reverse seq) (length seq - 1 - j)]
                   (StaticAxis 0)).
Proof.
  intros Hfwd Hbwd.
  destruct (Recurrence_forward stepFwd gf s0 seq Hfwd)
    as (rF & HrF & HlenF & HslotsF).
  destruct (Recurrence_backward stepBwd gb s0 seq Hbwd)
    as (rB & HrB & HlenB & HslotsB).
  exists (zip_with (fun a b => Splice [a; b] (StaticAxis 0)) rF rB).
  split; [|split].
  - cbn [fn BiRecurrence ModelT_of].
    eapply returns_bind; [exact HrF|].
    eapply returns_bind; [exact HrB|].
    unfold Batch_Map_binary. rewrite size_eqb_of_nat.
    rewrite bool_decide_eq_true_2 by congruence.
    eapply returns_bind; [intros w; reflexivity|].
    apply pair_loop_returns; [|congruence].
    intros a b w. reflexivity.
  - rewrite length_zip_with. lia.
  - intros j Hj. rewrite lookup_zip_with.
    rewrite HslotsF by lia. cbn [mbind option_bind].
    replace j with (length seq - 1 - (length seq - 1 - j)) at 1 by lia.
    now rewrite HslotsB by lia.
Qed.

(** ** The criterion of the unrolled classifier *)

(** X20: on batches of features and labels of unequal lengths the
    criterion of [CreateCriterionFunctionUnrolled] stops at the failed
    assertion of [Batch::Map] before the model is called, whatever the
    model. *)
Theorem CreateCriterionFunctionUnrolled_unequal (model : UnaryModel)
    (features labels : list Var) (w : world) :
  length features <> length labels ->
  CreateCriterionFunctionUnrolled model features labels w
  = (Fail AssertFailed, w).
Proof.
  intros Hne. unfold CreateCriterionFunctionUnrolled, Batch_Map_binary.
  rewrite size_eqb_of_nat.
  rewrite bool_decide_eq_false_2 by congruence.
  reflexivity.
Qed.

(** X21: on batches of equal length and for a model that computes [m], the
    criterion returns the sum along axis 0 of the splice along axis 0 of the
    per-item losses [ReduceLogSum(z) - Times(label, z, 0)] with
    [z = m (feature)], item by item in order. *)
Theorem CreateCriterionFunctionUnrolled_loss (model : UnaryModel)
    (m : Var -> Var) (features labels : list Var) :
  computes1 model m -> length features = length labels ->
  returns (CreateCriterionFunctionUnrolled model features labels)
    (ReduceSum
       (Splice
          (zip_with
             (fun feature label =>
                Minus (ReduceLogSum (m feature) AllStaticAxes)
                  (Times_rank label (m feature) 0))
             features labels)
          (StaticAxis 0))
       (StaticAxis 0)).
Proof.
  intros Hmodel Hlen. unfold CreateCriterionFunctionUnrolled.
  eapply returns_bind; [|apply returns_ret].
  unfold Batch_Map_binary. rewrite size_eqb_of_nat.
  rewrite bool_decide_eq_true_2 by congruence.
  eapply returns_bind; [intros w; reflexivity|].
  apply pair_loop_returns; [|exact Hlen].
  intros feature label. cbn [fn criterion_unrolled ModelT_of].
  eapply returns_bind; [apply Hmodel | apply returns_ret].
Qed.

(** ** Null parameter blocks *)

(** X22: a model made from a bare function ([Recurrence], [BiRecurrence],
    [Sequence::Recurrence], the criteria) has a null parameter block.
    [Sequential] stores that null pointer under the model's key, and
    [Nested] on the key then dereferences it: undefined behaviour, not the
    "no such captured model" error. *)
Theorem Sequential_Nested_null (fns : list UnaryModel) (i : nat)
    (f : UnaryModel) (w : world) :
  fns !! i = Some f -> GetParameterBlock f = None ->
  exists model,
    Sequential fns w = (Ok model, w)
    /\ forall w', ModelT_Nested model (index_name (N.of_nat i)) w'
                  = (Fail Undefined, w').
Proof.
  intros Hf Hnull.
  destruct (Sequential_captured_keys fns w) as (captured & Hrun & Hkeys & _).
  eexists. split.
  { unfold Sequential. rewrite (bind_Ok _ _ _ _ _ Hrun).
    apply ModelT_nested_no_parameters. }
  intros w'. unfold ModelT_Nested, ParameterBlock_Nested.
  cbn [GetParameterBlock m_parentParameters].
  now rewrite (Hkeys i f Hf), Hnull.
Qed.

(** ** A layer on a batch *)

Lemma push_back_each_enters (name : string) (f : UnaryModel)
    (g : Var -> Var) :
  enters1 name f g ->
  forall batch res w,
    push_back_each (fn f) batch res w
    = (Ok (res ++ (g <$> batch)),
       World (next_uid w)
         (trace w ++ ((fun x => Enter name [x]) <$> batch))).
Proof.
  intros Hf. induction batch as [|x rest IH]; intros res w;
    cbn [push_back_each].
  - rewrite !fmap_nil, !app_nil_r. now destruct w.
  - rewrite (bind_Ok _ _ _ _ _ (Hf x w)), IH. cbn [next_uid trace].
    rewrite !fmap_cons. now rewrite <- !app_assoc.
Qed.

(** X23: the model built by [Embedding], called on a vector of items,
    returns the products [Times(E, x)] of the items in order and records
    one entry per item, in order; no item is skipped or visited twice. *)
Theorem Embedding_on_batch (embeddingDim : N) (device : DeviceDescriptor)
    (w : world) :
  let E := MkParam (next_uid w) [embeddingDim; InferredDimension] Float
             GlorotUniformInitializer device "E" in
  exists model,
    Embedding embeddingDim device w
    = (Ok model, World (1 + next_uid w) (trace w))
    /\ forall batch w1,
         Broadcast_batch model batch w1
         = (Ok (Times (Var_of_Parameter E) <$> batch),
            World (next_uid w1)
              (trace w1 ++ ((fun x => Enter "Embedding" [x]) <$> batch))).
Proof.
  intros E. eexists. split; [reflexivity|].
  intros batch w1. unfold Broadcast_batch, Batch_map.
  apply (push_back_each_enters "Embedding" _ (Times (Var_of_Parameter E))).
  intros v w'. reflexivity.
Qed.

(** ** The calls of a recurrence *)

Lemma imap_take_S {A B : Type} (f : nat -> A -> B) (l : list A) (k : nat)
    (x : A) :
  l !! k = Some x -> imap f (take (S k) l) = imap f (take k l) ++ [f k x].
Proof.
  intros Hx. pose proof (lookup_lt_Some _ _ _ Hx) as Hk.
  rewrite (take_S_r _ _ _ Hx), imap_app. cbn [imap].
  rewrite length_take, Nat.min_l by lia.
  now rewrite Nat.add_0_r.
Qed.

Lemma Recurrence_forward_trace (step : BinaryModel) (name : string)
    (g : Var -> Var -> Var) (s0 : Var) (seq : list Var) (w : world) :
  enters2 name step g ->
  exists res,
    fn (Recurrence step s0 false) seq w
    = (Ok res,
       World (next_uid w) (trace w ++ recurrence_events name g s0 seq))
    /\ length res = length seq.
Proof.
  intros Hstep. cbn [fn Recurrence ModelT_of].
  destruct (for_loop_rule
              (fun k res w' =>
                 length res = length seq
                 /\ (forall j, j < k ->
                       res !! j = Some (state_after g s0 seq j))
                 /\ next_uid w' = next_uid w
                 /\ trace w'
                    = trace w
                      ++ imap (fun j x =>
                                 Enter name [foldl g s0 (take j seq); x])
                           (take k seq))
              (Recurrence_body step s0 false seq) (length seq)
              (replicate (length seq) Var_default) w)
    as (res & w' & Hrun & Hlen & _ & Huid & Htrace).
  - intros k res w' Hk (Hlen & Hslots & Huid & Htrace).
    destruct (lookup_lt_is_Some_2 seq k Hk) as [x Hx].
    exists (<[k := g (foldl g s0 (take k seq)) x]> res).
    eexists. split.
    { unfold Recurrence_body. cbn [negb].
      assert (Hprev :
                (if (N.of_nat k =? 0)%N then mret s0
                 else vec_get res (size_sub (N.of_nat k) 1))
                = (mret (foldl g s0 (take k seq)) : Eng Var)).
      { rewrite of_nat_eqb_0. case_bool_decide as Hk0.
        - now subst k.
        - rewrite size_sub_pred by lia.
          apply vec_get_lookup. rewrite Hslots by lia. unfold state_after.
          now replace (S (k - 1)) with k by lia. }
      rewrite Hprev, bind_ret, (vec_get_lookup _ _ _ Hx), bind_ret.
      rewrite (bind_Ok _ _ _ _ _ (Hstep _ _ w')).
      rewrite vec_set_insert by lia. reflexivity. }
    cbn [next_uid trace]. split; [now rewrite length_insert|].
    split; [|split; [exact Huid|]].
    + intros j Hj. destruct (decide (j = k)) as [->|Hne].
      * rewrite list_lookup_insert_eq by lia.
        unfold state_after. now rewrite (foldl_take_S _ _ _ _ _ Hx).
      * rewrite list_lookup_insert_ne by congruence. apply Hslots. lia.
    + rewrite Htrace, (imap_take_S _ _ _ _ Hx). now rewrite <- app_assoc.
  - split; [apply length_replicate|]. split; [intros j Hj; lia|].
    split; [reflexivity|]. cbn [take imap]. now rewrite app_nil_r.
  - exists res. split; [|exact Hlen].
    rewrite Hrun. rewrite firstn_all in Htrace.
    destruct w' as [uid' tr']. cbn [next_uid trace] in Huid, Htrace.
    now rewrite Huid, Htrace.
Qed.

Lemma Recurrence_backward_trace (step : BinaryModel) (name : string)
    (g : Var -> Var -> Var) (s0 : Var) (seq : list Var) (w : world) :
  enters2 name step g ->
  exists res,
    fn (Recurrence step s0 true) seq w
    = (Ok res,
       World (next_uid w)
         (trace w ++ recurrence_events name g s0 (reverse seq)))
    /\ length res = length seq.
Proof.
  intros Hstep. cbn [fn Recurrence ModelT_of].
  destruct (for_loop_rule
              (fun k res w' =>
                 length res = length seq
                 /\ (forall j, j < k ->
                       res !! (length seq - 1 - j)
                       = Some (state_after g s0 (reverse seq) j))
                 /\ next_uid w' = next_uid w
                 /\ trace w'
                    = trace w
                      ++ imap (fun j x =>
                                 Enter name
                                   [foldl g s0 (take j (reverse seq)); x])
                           (take k (reverse seq)))
              (Recurrence_body step s0 true seq) (length seq)
              (replicate (length seq) Var_default) w)
    as (res & w' & Hrun & Hlen & _ & Huid & Htrace).
  - intros k res w' Hk (Hlen & Hslots & Huid & Htrace).
    destruct (lookup_lt_is_Some_2 seq (length seq - 1 - k) ltac:(lia))
      as [x Hx].
    assert (Hrx : reverse seq !! k = Some x).
    { rewrite reverse_lookup by lia. rewrite <- Hx. f_equal; lia. }
    exists (<[length seq - 1 - k
              := g (foldl g s0 (take k (reverse seq))) x]> res).
    eexists. split.
    { unfold Recurrence_body. cbn [negb].
      assert (Hprev :
                (if (N.of_nat k =? 0)%N then mret s0
                 else vec_get res
                        (size_sub (size_sub (N.of_nat (length seq)) 1)
                           (size_sub (N.of_nat k) 1)))
                = (mret (foldl g s0 (take k (reverse seq))) : Eng Var)).
      { rewrite of_nat_eqb_0. case_bool_decide as Hk0.
        - now subst k.
        - rewrite size_sub_mirror_pred by lia.
          apply vec_get_lookup.
          replace (length seq - k) with (length seq - 1 - (k - 1)) by lia.
          rewrite Hslots by lia. unfold state_after.
          now replace (S (k - 1)) with k by lia. }
      rewrite Hprev, bind_ret, size_sub_mirror by lia.
      rewrite (vec_get_lookup _ _ _ Hx), bind_ret.
      rewrite (bind_Ok _ _ _ _ _ (Hstep _ _ w')).
      rewrite vec_set_insert by lia. reflexivity. }
    cbn [next_uid trace]. split; [now rewrite length_insert|].
    split; [|split; [exact Huid|]].
    + intros j Hj. destruct (decide (j = k)) as [->|Hne].
      * rewrite list_lookup_insert_eq by lia.
        unfold state_after. now rewrite (foldl_take_S _ _ _ _ _ Hrx).
      * rewrite list_lookup_insert_ne by lia. apply Hslots. lia.
    + rewrite Htrace, (imap_take_S _ _ _ _ Hrx). now rewrite <- app_assoc.
  - split; [apply length_replicate|]. split; [intros j Hj; lia|].
    split; [reflexivity|]. cbn [take imap]. now rewrite app_nil_r.
  - exists res. split; [|exact Hlen].
    rewrite Hrun. rewrite <- (length_reverse seq), firstn_all in Htrace.
    destruct w' as [uid' tr']. cbn [next_uid trace] in Huid, Htrace.
    now rewrite Huid, Htrace.
Qed.

(** X24: a recurrence calls its step exactly once per item of the
    sequence, with the state before the item and the item: in the order of
    the sequence when it goes forward, in the reverse order when it goes
    backwards.  Shown on the trace of a step that records its entries. *)
Theorem Recurrence_calls (step : BinaryModel) (name : string)
    (g : Var -> Var -> Var) (s0 : Var) (seq : list Var) (w : world) :
  enters2 name step g ->
  (exists res,
      fn (Recurrence step s0 false) seq w
      = (Ok res,
         World (next_uid w) (trace w ++ recurrence_events name g s0 seq))
      /\ length res = length seq)
  /\ (exists res,
         fn (Recurrence step s0 true) seq w
         = (Ok res,
            World (next_uid w)
              (trace w ++ recurrence_events name g s0 (reverse seq)))
         /\ length res = length seq)
  /\ length (recurrence_events name g s0 seq) = length seq
  /\ forall j x, seq !! j = Some x ->
       recurrence_events name g s0 seq !! j
       = Some (Enter name [foldl g s0 (take j seq); x]).
Proof.
  intros Hstep. split; [now apply Recurrence_forward_trace|].
  split; [now apply Recurrence_backward_trace|].
  unfold recurrence_events. split; [apply length_imap|].
  intros j x Hx. now rewrite list_lookup_imap, Hx.
Qed.

(** ** A step that fails in the middle of a sequence *)

(** X25: when the step computes [g] on the items before [x] and fails on
    [x] (called with the state reached there), the forward recurrence over
    [pre ++ x :: post] fails the same way: the results of the items before
    [x] are not returned, and the items after it are not visited. *)
Theorem Recurrence_step_failure (step : BinaryModel) (g : Var -> Var -> Var)
    (s0 x : Var) (pre post : list Var) (e : failure) :
  (forall prev y, y ∈ pre -> returns (fn step prev y) (g prev y)) ->
  yields (fn step (foldl g s0 pre) x) (Fail e) ->
  yields (fn (Recurrence step s0 false) (pre ++ x :: post)) (Fail e).
Proof.
  intros Hpre Hfail. set (seq := pre ++ x :: post).
  assert (Hlen : length seq = length pre + S (length post))
    by (unfold seq; rewrite length_app; reflexivity).
  assert (Htake : take (length pre) seq = pre)
    by (unfold seq; apply take_app_length).
  assert (Hx : seq !! length pre = Some x)
    by (unfold seq; apply list_lookup_middle; reflexivity).
  destruct (for_from_invariant
              (fun k res =>
                 length res = length seq
                 /\ forall j, j < k -> res !! j = Some (state_after g s0 seq j))
              (Recurrence_body step s0 false seq) (length pre))
    with (count := length pre) (k := 0)
         (s := replicate (length seq) Var_default)
    as (res & Hres & Hlenres & Hslots).
  - intros k res Hk [Hlenres Hslots].
    destruct (lookup_lt_is_Some_2 seq k ltac:(lia)) as [y Hy].
    assert (Hin : y ∈ pre).
    { apply list_elem_of_lookup. exists k.
      rewrite <- Htake. now rewrite lookup_take_lt by lia. }
    exists (<[k := g (foldl g s0 (take k seq)) y]> res). split.
    + unfold Recurrence_body. cbn [negb].
      eapply (returns_bind _ _ (foldl g s0 (take k seq))).
      { rewrite of_nat_eqb_0. case_bool_decide as Hk0.
        - subst k. apply returns_ret.
        - rewrite size_sub_pred by lia.
          rewrite (vec_get_lookup res (k - 1) (foldl g s0 (take k seq))).
          + apply returns_ret.
          + rewrite Hslots by lia. unfold state_after.
            now replace (S (k - 1)) with k by lia. }
      rewrite (vec_get_lookup _ _ _ Hy).
      eapply returns_bind; [apply returns_ret|].
      eapply returns_bind; [apply Hpre, Hin|].
      rewrite vec_set_insert by lia. apply returns_ret.
    + split; [now rewrite length_insert|].
      intros j Hj. destruct (decide (j = k)) as [->|Hne].
      * rewrite list_lookup_insert_eq by lia.
        unfold state_after. now rewrite (foldl_take_S _ _ _ _ _ Hy).
      * rewrite list_lookup_insert_ne by congruence. apply Hslots. lia.
  - lia.
  - split; [apply length_replicate | intros j Hj; lia].
  - intros w. cbn [fn Recurrence ModelT_of]. fold seq.
    unfold for_loop. rewrite Nat2N.id.
    set (arg0 := replicate (length seq) Var_default) in *.
    rewrite Hlen, for_from_split.
    revert w. eapply yields_bind; [exact Hres|].
    cbn [for_from]. apply fails_bind. rewrite N.add_0_l.
    unfold Recurrence_body. cbn [negb].
    eapply (yields_bind _ _ (foldl g s0 pre)).
    { rewrite of_nat_eqb_0. case_bool_decide as Hk0.
      - rewrite <- Htake, Hk0. apply returns_ret.
      - rewrite size_sub_pred by lia.
        rewrite (vec_get_lookup res (length pre - 1) (foldl g s0 pre)).
        + apply returns_ret.
        + rewrite Hslots by lia. unfold state_after.
          replace (S (length pre - 1)) with (length pre) by lia.
          now rewrite Htake. }
    rewrite (vec_get_lookup _ _ _ Hx).
    eapply yields_bind; [apply returns_ret|].
    apply fails_bind, Hfail.
Qed.

(** ** The range Index slices *)

(** X26: while the rank of the tensor and the index fit in an [int],
    [Index(x, i)] slices the half-open range [i, i+1) of the last axis,
    axis [rank - 1], and no other. *)
Theorem Index_slice_range (x : Var) (i : N) :
  (N.of_nat (length (Shape x)) < 2 ^ 31)%N ->
  (i < 2 ^ 31 - 1)%N ->
  Index_slice x i
  = Slice x [StaticAxis (Z.of_nat (length (Shape x)) - 1)]
      [Z.of_N i] [(Z.of_N i + 1)%Z].
Proof.
  intros Hrank Hi. unfold Index_slice.
  assert (Hint : forall n : N, (n < 2 ^ 31)%N -> to_int n = Z.of_N n).
  { intros n Hn. unfold to_int.
    assert (Hsmall : (Z.of_N n mod 2 ^ 32 = Z.of_N n)%Z)
      by (apply Z.mod_small; lia).
    cbv zeta. rewrite Hsmall.
    destruct (Z.ltb_spec (Z.of_N n) (2 ^ 31)); [reflexivity | lia]. }
  assert (Hadd : forall a b : Z,
             (- 2 ^ 31 <= a + b < 2 ^ 31)%Z -> int_add a b = (a + b)%Z).
  { intros a b Hab. unfold int_add. cbv zeta.
    destruct (Z.ltb_spec ((a + b) mod 2 ^ 32) (2 ^ 31)) as [Hlt|Hge].
    - destruct (Z_lt_le_dec (a + b) 0) as [Hneg|Hpos].
      + rewrite <- (Z.mod_add (a + b) 1 (2 ^ 32)) in Hlt by lia.
        rewrite Z.mod_small in Hlt by lia. lia.
      + apply Z.mod_small. lia.
    - destruct (Z_lt_le_dec (a + b) 0) as [Hneg|Hpos].
      + rewrite <- (Z.mod_add (a + b) 1 (2 ^ 32)) by lia.
        rewrite Z.mod_small by lia. lia.
      + rewrite Z.mod_small in Hge by lia. lia. }
  rewrite (Hint (N.of_nat (length (Shape x))) Hrank).
  rewrite (Hint i) by lia.
  rewrite !Hadd by lia.
  now rewrite nat_N_Z.
Qed.

End Further_properties.

(** * The further properties on the symbolic engine *)

#[local] Existing Instance Symbolic.engine.
#[local] Existing Instance Symbolic.graph_ops.

Lemma ParameterBlock_new_unnamed_witness :
  (exists p, p ∈ [Symbolic.W1; Symbolic.unnamed] /\ Name p = "")
  /\ ParameterBlock_new [Symbolic.W1; Symbolic.unnamed] ∅ Symbolic.w0
     = (Fail (LogicError "parameters must be named"), Symbolic.w0).
Proof.
  assert (Hyp : exists p, p ∈ [Symbolic.W1; Symbolic.unnamed] /\ Name p = "").
  { exists Symbolic.unnamed. split; [|reflexivity].
    apply elem_of_cons. right. apply elem_of_cons. now left. }
  split; [exact Hyp|].
  exact (ParameterBlock_new_unnamed _ ∅ Symbolic.w0 Hyp).
Defined.

(** Of two parameters named "W" the first is the one kept. *)
Lemma ParameterBlock_new_lookup_witness :
  Forall (fun p => Name p <> "") [Symbolic.W1; Symbolic.W2]
  /\ exists pb,
       ParameterBlock_new [Symbolic.W1; Symbolic.W2] ∅ Symbolic.w0
       = (Ok pb, Symbolic.w0)
       /\ ParameterBlock_lookup pb "W" Symbolic.w0
          = (Ok Symbolic.W1, Symbolic.w0)
       /\ ParameterBlock_lookup pb "R" Symbolic.w0
          = (Fail (LogicError "no such parameter: R"), Symbolic.w0).
Proof.
  assert (Hyp : Forall (fun p => Name p <> "") [Symbolic.W1; Symbolic.W2]).
  { repeat constructor; discriminate. }
  split; [exact Hyp|].
  destruct (ParameterBlock_new_lookup [Symbolic.W1; Symbolic.W2] ∅
              Symbolic.w0 Hyp) as (pb & Hnew & _ & Hlook).
  exists pb. split; [exact Hnew|]. split; apply Hlook.
Defined.

Lemma CreateModelFunctionUnrolled_paths_witness :
  "E" <> "embed" /\ "E" <> "step" /\ "E" <> "linear"
  /\ exists model,
       CreateModelFunctionUnrolled 5 50 25 Symbolic.cpu Symbolic.w0
       = (Ok model, World 6 [])
       /\ ModelT_Nested model "E" Symbolic.w0
          = (Fail (LogicError "no such captured model: E"), Symbolic.w0).
Proof.
  assert (H1 : "E" <> "embed") by discriminate.
  assert (H2 : "E" <> "step") by discriminate.
  assert (H3 : "E" <> "linear") by discriminate.
  split; [exact H1|]. split; [exact H2|]. split; [exact H3|].
  destruct (CreateModelFunctionUnrolled_paths 5 50 25 Symbolic.cpu
              Symbolic.w0 "E" H1 H2 H3)
    as (model & Hbuild & _ & _ & _ & _ & _ & _ & Hmissing).
  exists model. split; [exact Hbuild | apply Hmissing].
Defined.

(** Two stages without parameter block: the keys "[0]" and "[1]" hold
    their null pointers, "[2]" is no key. *)
Lemma Sequential_composes_witness :
  Forall2 computes1 [Symbolic.relu_model; Symbolic.relu_model] [ReLU; ReLU]
  /\ exists model pb,
       Sequential [Symbolic.relu_model; Symbolic.relu_model] Symbolic.w0
       = (Ok model, Symbolic.w0)
       /\ GetParameterBlock model = Some pb
       /\ m_parentParameters pb !! "[1]" = Some None
       /\ m_parentParameters pb !! "[2]" = None
       /\ returns (fn model Symbolic.x1)
            (ReLU (ReLU (Combine [Symbolic.x1]))).
Proof.
  assert (Hyp : Forall2 computes1
                  [Symbolic.relu_model; Symbolic.relu_model] [ReLU; ReLU]).
  { repeat constructor; exact relu_model_computes. }
  split; [exact Hyp|].
  destruct (Sequential_composes [Symbolic.relu_model; Symbolic.relu_model]
              Symbolic.w0)
    as (model & pb & Hbuild & Hpb & _ & Hkeys & Hother & _ & Hrun).
  exists model, pb. split; [exact Hbuild|]. split; [exact Hpb|].
  split; [exact (Hkeys 1 Symbolic.relu_model eq_refl)|].
  split.
  - apply Hother. intros i Hi Heq.
    apply (index_name_inj 2 (N.of_nat i)) in Heq. simpl in Hi. lia.
  - exact (Hrun [ReLU; ReLU] Symbolic.x1 Hyp).
Defined.

Lemma Batch_sum_nested_flat_witness :
  concat [[]; [Symbolic.x1]; [Symbolic.h0]] = Symbolic.x1 :: [Symbolic.h0]
  /\ Batch_sum_nested [[]; [Symbolic.x1]; [Symbolic.h0]] Symbolic.w0
     = Batch_sum [Symbolic.x1; Symbolic.h0] Symbolic.w0.
Proof.
  assert (Hyp : concat [[]; [Symbolic.x1]; [Symbolic.h0]]
                = Symbolic.x1 :: [Symbolic.h0]) by reflexivity.
  split; [exact Hyp|].
  exact (proj2 (Batch_sum_nested_flat _ _ _ Symbolic.w0 Hyp)).
Defined.

Lemma x3_steps : last (Shape Symbolic.x3) = Some 3%N.
Proof. reflexivity. Defined.

Lemma x3_slices (t : N) : (t < 3)%N -> Shape (Index_slice Symbolic.x3 t) <> [].
Proof. intros _. discriminate. Defined.

Lemma ToVector_slices_witness :
  last (Shape Symbolic.x3) = Some 3%N
  /\ (forall t, (t < 3)%N -> Shape (Index_slice Symbolic.x3 t) <> [])
  /\ (3 <= 2 ^ 58)%N /\ (2 < 3)%N
  /\ evaluates (ToVector (2 ^ 58) Symbolic.x3)
       [slice_at Symbolic.x3 0; slice_at Symbolic.x3 1;
        slice_at Symbolic.x3 2]
  /\ ToVector 2 Symbolic.x3 Symbolic.w0 = (Fail LengthError, Symbolic.w0).
Proof.
  assert (Hfits : (3 <= 2 ^ 58)%N) by discriminate.
  assert (Hlong : (2 < 3)%N) by reflexivity.
  split; [exact x3_steps|]. split; [exact x3_slices|].
  split; [exact Hfits|]. split; [exact Hlong|]. split.
  - exact (proj1 (proj1 (ToVector_slices (2 ^ 58) Symbolic.x3 3 x3_steps
                           x3_slices) Hfits)).
  - exact (proj2 (ToVector_slices 2 Symbolic.x3 3 x3_steps x3_slices)
             Hlong Symbolic.w0).
Defined.

Lemma two_streams_consistent :
  forall i input variable,
    [Symbolic.two_sequences; Symbolic.two_samples] !! i = Some input ->
    [Symbolic.features; Symbolic.labels] !! i = Some variable ->
    length (UnpackVariableValue input variable Symbolic.cpu) = 2
    /\ Forall (sample_axis_ok (has_sequence_axis variable))
         (UnpackVariableValue input variable Symbolic.cpu).
Proof.
  intros [|[|i]] input variable Hin Hvar; try discriminate Hin;
    injection Hin as <-; injection Hvar as <-;
    (split; [reflexivity|]).
  - constructor; [now left|]. constructor; [now left|]. constructor.
  - constructor; [now right|]. constructor; [now right|]. constructor.
Defined.

(** A stream of two sequences and a stream of two labels. *)
Lemma FromCNTKMB_consistent_witness :
  length [Symbolic.two_sequences; Symbolic.two_samples]
  <= length [Symbolic.features; Symbolic.labels]
  /\ (forall i input variable,
         [Symbolic.two_sequences; Symbolic.two_samples] !! i = Some input ->
         [Symbolic.features; Symbolic.labels] !! i = Some variable ->
         length (UnpackVariableValue input variable Symbolic.cpu) = 2
         /\ Forall (sample_axis_ok (has_sequence_axis variable))
              (UnpackVariableValue input variable Symbolic.cpu))
  /\ exists res,
       FromCNTKMB [Symbolic.two_sequences; Symbolic.two_samples]
         [Symbolic.features; Symbolic.labels] Symbolic.cpu Symbolic.w0
       = (Ok res, Symbolic.w0)
       /\ res !! 1
          = Some [Constant_view [5%N]; Constant_view [5%N]].
Proof.
  assert (Hlen : length [Symbolic.two_sequences; Symbolic.two_samples]
                 <= length [Symbolic.features; Symbolic.labels])
    by (simpl; lia).
  split; [exact Hlen|]. split; [exact two_streams_consistent|].
  destruct (FromCNTKMB_consistent _ _ Symbolic.cpu 2 Symbolic.w0 Hlen
              two_streams_consistent) as (res & Hrun & _ & Hat & _).
  exists res. split; [exact Hrun|].
  apply (Hat 1 Symbolic.two_samples Symbolic.labels); reflexivity.
Defined.

Lemma first_stream_of_two :
  forall i input variable,
    i < 1 ->
    [Symbolic.two_sequences; Symbolic.one_sequence] !! i = Some input ->
    [Symbolic.features; Symbolic.features] !! i = Some variable ->
    length (UnpackVariableValue input variable Symbolic.cpu) = 2
    /\ Forall (sample_axis_ok (has_sequence_axis variable))
         (UnpackVariableValue input variable Symbolic.cpu).
Proof.
  intros [|i] input variable Hi Hin Hvar; [|lia].
  injection Hin as <-. injection Hvar as <-.
  split; [reflexivity|].
  constructor; [now left|]. constructor; [now left|]. constructor.
Defined.

(** Two sequences, then one. *)
Lemma FromCNTKMB_mismatch_witness :
  0 < 1 /\ 2 <> 0
  /\ length (UnpackVariableValue Symbolic.one_sequence Symbolic.features
               Symbolic.cpu) <> 2
  /\ FromCNTKMB [Symbolic.two_sequences; Symbolic.one_sequence]
       [Symbolic.features; Symbolic.features] Symbolic.cpu Symbolic.w0
     = (Fail (LogicError "inconsistent MB size"), Symbolic.w0).
Proof.
  assert (H1 : 0 < 1) by lia.
  assert (H2 : 2 <> 0) by lia.
  assert (H3 : length (UnpackVariableValue Symbolic.one_sequence
                         Symbolic.features Symbolic.cpu) <> 2)
    by (simpl; lia).
  split; [exact H1|]. split; [exact H2|]. split; [exact H3|].
  exact (FromCNTKMB_mismatch
           [Symbolic.two_sequences; Symbolic.one_sequence]
           [Symbolic.features; Symbolic.features] Symbolic.cpu 2 1
           Symbolic.one_sequence Symbolic.features Symbolic.w0
           H1 H2 eq_refl eq_refl first_stream_of_two H3).
Defined.

Lemma no_stream_before (inputs : list Value) (variables : list Var) :
  forall i input variable,
    i < 0 -> inputs !! i = Some input -> variables !! i = Some variable ->
    length (UnpackVariableValue input variable Symbolic.cpu) = 2
    /\ Forall (sample_axis_ok (has_sequence_axis variable))
         (UnpackVariableValue input variable Symbolic.cpu).
Proof. intros i input variable Hi. lia. Defined.

(** A label stream whose second sequence holds two samples. *)
Lemma FromCNTKMB_sample_axis_witness :
  has_sequence_axis Symbolic.labels = false
  /\ UnpackVariableValue Symbolic.long_sample Symbolic.labels Symbolic.cpu
     = [[5%N; 1%N]] ++ [5%N; 2%N] :: []
  /\ Forall (fun d => last (View_Shape d) = Some 1%N) [[5%N; 1%N]]
  /\ last (View_Shape [5%N; 2%N]) = Some 2%N /\ 2%N <> 1%N
  /\ FromCNTKMB [Symbolic.long_sample] [Symbolic.labels] Symbolic.cpu
       Symbolic.w0
     = (Fail AssertFailed, Symbolic.w0).
Proof.
  assert (H1 : has_sequence_axis Symbolic.labels = false) by reflexivity.
  assert (H2 : UnpackVariableValue Symbolic.long_sample Symbolic.labels
                 Symbolic.cpu = [[5%N; 1%N]] ++ [5%N; 2%N] :: [])
    by reflexivity.
  assert (H3 : Forall (fun d => last (View_Shape d) = Some 1%N) [[5%N; 1%N]])
    by (constructor; [reflexivity | constructor]).
  assert (H4 : last (View_Shape [5%N; 2%N]) = Some 2%N) by reflexivity.
  assert (H5 : 2%N <> 1%N) by discriminate.
  split; [exact H1|]. split; [exact H2|]. split; [exact H3|].
  split; [exact H4|]. split; [exact H5|].
  exact (FromCNTKMB_sample_axis [Symbolic.long_sample] [Symbolic.labels]
           Symbolic.cpu 2 0 Symbolic.long_sample Symbolic.labels
           [[5%N; 1%N]] [] [5%N; 2%N] 2%N Symbolic.w0
           eq_refl eq_refl
           (no_stream_before [Symbolic.long_sample] [Symbolic.labels])
           H1 H2 eq_refl H3 H4 H5).
Defined.

(** Three time steps through models without parameters. *)
Lemma CreateModelFunctionUnrolled_fn_steps_witness :
  computes1 Symbolic.relu_model ReLU
  /\ computes2 Symbolic.plus_model Plus
  /\ last (Shape Symbolic.x3) = Some 3%N
  /\ (forall t, (t < 3)%N -> Shape (Index_slice Symbolic.x3 t) <> [])
  /\ returns
       (CreateModelFunctionUnrolled_fn Symbolic.relu_model Symbolic.plus_model
          Symbolic.relu_model Symbolic.h0 Symbolic.x3)
       (ReLU
          (Plus
             (Plus (Plus Symbolic.h0 (ReLU (slice_at Symbolic.x3 0)))
                (ReLU (slice_at Symbolic.x3 1)))
             (ReLU (slice_at Symbolic.x3 2)))).
Proof.
  split; [exact relu_model_computes|]. split; [exact plus_model_computes|].
  split; [exact x3_steps|]. split; [exact x3_slices|].
  exact (CreateModelFunctionUnrolled_fn_steps Symbolic.relu_model
           Symbolic.plus_model Symbolic.relu_model ReLU Plus ReLU
           Symbolic.h0 Symbolic.x3 3 relu_model_computes plus_model_computes
           relu_model_computes x3_steps x3_slices).
Defined.

(** Three time steps: seven entries. *)
Lemma CreateModelFunctionUnrolled_calls_witness :
  last (Shape Symbolic.x3) = Some 3%N
  /\ (forall t, (t < 3)%N -> Shape (Index_slice Symbolic.x3 t) <> [])
  /\ exists model y events,
       CreateModelFunctionUnrolled 5 50 25 Symbolic.cpu Symbolic.w0
       = (Ok model, World 6 [])
       /\ fn model Symbolic.x3 Symbolic.w0 = (Ok y, World 0 events)
       /\ layer <$> events
          = ["Embedding"; "RNNStep"; "Embedding"; "RNNStep";
             "Embedding"; "RNNStep"; "Linear"].
Proof.
  split; [exact x3_steps|]. split; [exact x3_slices|].
  destruct (CreateModelFunctionUnrolled_calls 5 50 25 Symbolic.cpu
              Symbolic.x3 3 Symbolic.w0 Symbolic.w0 x3_steps x3_slices)
    as (model & y & events & Hbuild & Hrun & Hlayers & _).
  exists model, y, events.
  split; [exact Hbuild|]. split; [exact Hrun | exact Hlayers].
Defined.

Lemma Recurrence_backward_mirror_witness :
  computes2 Symbolic.plus_model Plus
  /\ exists rb rf,
       returns (fn (Recurrence Symbolic.plus_model Symbolic.h0 true)
                  [Symbolic.x1; Symbolic.h0]) rb
       /\ returns (fn (Recurrence Symbolic.plus_model Symbolic.h0 false)
                     [Symbolic.h0; Symbolic.x1]) rf
       /\ rb = reverse rf.
Proof.
  split; [exact plus_model_computes|].
  exact (Recurrence_backward_mirror Symbolic.plus_model Plus Symbolic.h0
           [Symbolic.x1; Symbolic.h0] plus_model_computes).
Defined.

Lemma Recurrence_final_state_witness :
  computes2 Symbolic.plus_model Plus
  /\ [Symbolic.x1; Symbolic.h0] <> []
  /\ exists rf rb,
       returns (fn (Recurrence Symbolic.plus_model Symbolic.h0 false)
                  [Symbolic.x1; Symbolic.h0]) rf
       /\ returns (fn (Recurrence Symbolic.plus_model Symbolic.h0 true)
                     [Symbolic.x1; Symbolic.h0]) rb
       /\ last rf = Some (Plus (Plus Symbolic.h0 Symbolic.x1) Symbolic.h0)
       /\ head rb = Some (Plus (Plus Symbolic.h0 Symbolic.h0) Symbolic.x1).
Proof.
  assert (Hne : [Symbolic.x1; Symbolic.h0] <> []) by discriminate.
  split; [exact plus_model_computes|]. split; [exact Hne|].
  exact (Recurrence_final_state Symbolic.plus_model Plus Symbolic.h0
           [Symbolic.x1; Symbolic.h0] plus_model_computes Hne).
Defined.

Lemma Recurrence_forward_prefix_witness :
  computes2 Symbolic.plus_model Plus
  /\ exists r r',
       returns (fn (Recurrence Symbolic.plus_model Symbolic.h0 false)
                  [Symbolic.x1]) r
       /\ returns (fn (Recurrence Symbolic.plus_model Symbolic.h0 false)
                     ([Symbolic.x1] ++ [Symbolic.h0; Symbolic.x1])) r'
       /\ take 1 r' = r
       /\ length r' = 3.
Proof.
  split; [exact plus_model_computes|].
  exact (Recurrence_forward_prefix Symbolic.plus_model Plus Symbolic.h0
           [Symbolic.x1] [Symbolic.h0; Symbolic.x1] plus_model_computes).
Defined.

Lemma BiRecurrence_slots_witness :
  computes2 Symbolic.plus_model Plus
  /\ exists res,
       returns (fn (BiRecurrence Symbolic.plus_model Symbolic.plus_model
                      Symbolic.h0) [Symbolic.x1; Symbolic.h0]) res
       /\ length res = 2
       /\ res !! 0
          = Some (Splice [Plus Symbolic.h0 Symbolic.x1;
                          Plus (Plus Symbolic.h0 Symbolic.h0) Symbolic.x1]
                    (StaticAxis 0)).
Proof.
  split; [exact plus_model_computes|].
  destruct (BiRecurrence_slots Symbolic.plus_model Symbolic.plus_model
              Plus Plus Symbolic.h0 [Symbolic.x1; Symbolic.h0]
              plus_model_computes plus_model_computes)
    as (res & Hres & Hlen & Hslots).
  exists res. split; [exact Hres|]. split; [exact Hlen|].
  apply (Hslots 0). simpl. lia.
Defined.

Lemma CreateCriterionFunctionUnrolled_unequal_witness :
  length [Symbolic.x1] <> length (@nil Var)
  /\ CreateCriterionFunctionUnrolled Symbolic.relu_model [Symbolic.x1] []
       Symbolic.w0
     = (Fail AssertFailed, Symbolic.w0).
Proof.
  assert (Hne : length [Symbolic.x1] <> length (@nil Var)) by (simpl; lia).
  split; [exact Hne|].
  exact (CreateCriterionFunctionUnrolled_unequal Symbolic.relu_model
           [Symbolic.x1] [] Symbolic.w0 Hne).
Defined.

Lemma CreateCriterionFunctionUnrolled_loss_witness :
  computes1 Symbolic.relu_model ReLU
  /\ length [Symbolic.x1] = length [Symbolic.h0]
  /\ returns
       (CreateCriterionFunctionUnrolled Symbolic.relu_model [Symbolic.x1]
          [Symbolic.h0])
       (ReduceSum
          (Splice
             [Minus (ReduceLogSum (ReLU Symbolic.x1) AllStaticAxes)
                (Times_rank Symbolic.h0 (ReLU Symbolic.x1) 0)]
             (StaticAxis 0))
          (StaticAxis 0)).
Proof.
  assert (Hlen : length [Symbolic.x1] = length [Symbolic.h0]) by reflexivity.
  split; [exact relu_model_computes|]. split; [exact Hlen|].
  exact (CreateCriterionFunctionUnrolled_loss Symbolic.relu_model ReLU
           [Symbolic.x1] [Symbolic.h0] relu_model_computes Hlen).
Defined.

(** [Sequential] over a model made from a bare function. *)
Lemma Sequential_Nested_null_witness :
  [Symbolic.relu_model] !! 0 = Some Symbolic.relu_model
  /\ GetParameterBlock Symbolic.relu_model = None
  /\ exists model,
       Sequential [Symbolic.relu_model] Symbolic.w0 = (Ok model, Symbolic.w0)
       /\ ModelT_Nested model "[0]" Symbolic.w0
          = (Fail Undefined, Symbolic.w0).
Proof.
  split; [reflexivity|]. split; [reflexivity|].
  destruct (Sequential_Nested_null [Symbolic.relu_model] 0
              Symbolic.relu_model Symbolic.w0 eq_refl eq_refl)
    as (model & Hbuild & Hnull).
  exists model. split; [exact Hbuild | apply (Hnull Symbolic.w0)].
Defined.

Lemma recording_step_enters : enters2 "step" Symbolic.recording_step Plus.
Proof. intros u v w. reflexivity. Defined.

(** Two items backwards: the second item is visited first. *)
Lemma Recurrence_calls_witness :
  enters2 "step" Symbolic.recording_step Plus
  /\ exists res,
       fn (Recurrence Symbolic.recording_step Symbolic.h0 true)
         [Symbolic.x1; Symbolic.x3] Symbolic.w0
       = (Ok res,
          World 0 [Enter "step" [Symbolic.h0; Symbolic.x3];
                   Enter "step" [Plus Symbolic.h0 Symbolic.x3; Symbolic.x1]]).
Proof.
  split; [exact recording_step_enters|].
  destruct (Recurrence_calls Symbolic.recording_step "step" Plus Symbolic.h0
              [Symbolic.x1; Symbolic.x3] Symbolic.w0 recording_step_enters)
    as (_ & (res & Hrun & _) & _).
  exists res. exact Hrun.
Defined.

(** Two items go through, the third makes the step throw, a fourth
    follows. *)
Lemma Recurrence_step_failure_witness :
  (forall prev y, y ∈ [Symbolic.x1; Symbolic.x1] ->
     returns (fn Symbolic.picky_step prev y) (Plus prev y))
  /\ yields (fn Symbolic.picky_step
               (foldl Plus Symbolic.h0 [Symbolic.x1; Symbolic.x1])
               Symbolic.x3)
       (Fail (LogicError "step"))
  /\ yields (fn (Recurrence Symbolic.picky_step Symbolic.h0 false)
               ([Symbolic.x1; Symbolic.x1] ++ Symbolic.x3 :: [Symbolic.x1]))
       (Fail (LogicError "step"))
  /\ returns (fn (Recurrence Symbolic.picky_step Symbolic.h0 false)
                [Symbolic.x1; Symbolic.x1])
       [Plus Symbolic.h0 Symbolic.x1;
        Plus (Plus Symbolic.h0 Symbolic.x1) Symbolic.x1].
Proof.
  assert (Hpre : forall prev y, y ∈ [Symbolic.x1; Symbolic.x1] ->
            returns (fn Symbolic.picky_step prev y) (Plus prev y)).
  { intros prev y Hin w.
    apply elem_of_cons in Hin as [->|Hin]; [reflexivity|].
    apply elem_of_cons in Hin as [->|Hin]; [reflexivity|].
    apply elem_of_nil in Hin. contradiction. }
  assert (Hfail : yields (fn Symbolic.picky_step
                            (foldl Plus Symbolic.h0
                               [Symbolic.x1; Symbolic.x1]) Symbolic.x3)
                    (Fail (LogicError "step")))
    by (intros w; reflexivity).
  split; [exact Hpre|]. split; [exact Hfail|]. split.
  - exact (Recurrence_step_failure Symbolic.picky_step Plus Symbolic.h0
             Symbolic.x3 [Symbolic.x1; Symbolic.x1] [Symbolic.x1]
             (LogicError "step") Hpre Hfail).
  - intros w. reflexivity.
Defined.

Lemma Index_slice_range_witness :
  (N.of_nat (length (Shape Symbolic.x3)) < 2 ^ 31)%N
  /\ (2 < 2 ^ 31 - 1)%N
  /\ Index_slice Symbolic.x3 2
     = Slice Symbolic.x3 [StaticAxis 1] [2%Z] [3%Z].
Proof.
  assert (Hrank : (N.of_nat (length (Shape Symbolic.x3)) < 2 ^ 31)%N)
    by reflexivity.
  assert (Hi : (2 < 2 ^ 31 - 1)%N) by reflexivity.
  split; [exact Hrank|]. split; [exact Hi|].
  exact (Index_slice_range Symbolic.x3 2 Hrank Hi).
Defined.

(** ** Fold against the recurrence over a vector *)



